(** * Stock dashboard: the watchlist controller of [frontend/src/App.tsx]

    A shallow embedding of the state and handlers of the [App] component
    and the properties of its fetch orchestration, price sort, search
    suggestions and watchlist.

    Modelling conventions.
    - A JavaScript [number] is a binary64 float: Rocq's primitive [float],
      with the IEEE operations the source applies to it.
    - A [Record<string, T>] object used as a dictionary is a [gmap string T];
      [{...m, [k]: v}] is insertion and [delete copy[k]] is deletion.  Keys
      are ticker symbols, so only own properties are looked up.
    - [useState] cells are the fields of one [State] record; a functional
      updater [setX(m => f m)] is [setX f].
    - An [async] function is split at its [await]: the part that runs at the
      call and the part that runs when the awaited request settles.
    - [parseFloat] and [new Date(s).getTime()] are builtins of the host
      engine; they are operations of the class [Host]. *)

From Stdlib Require Import Floats ZArith Lia Bool.
From stdpp Require Import gmap strings list sorting.

(** ** JavaScript numbers *)

(** The sign a comparator result has for [Array.prototype.sort]: negative,
    positive, or neither ([+0], [-0] and [NaN] all count as [0]). *)
Definition sgn (v : float) : comparison :=
  if (v <? 0)%float then Lt else if (0 <? v)%float then Gt else Eq.

(** The least exponent of a binary64 mantissa taken as an integer. *)
Definition emin64 : Z := -1074.

(** The value of a binary64 datum in units of [2 ^ emin64]; an infinity
    lies beyond every finite value.  [NaN] has no value ([0] is a filler). *)
Definition SF2Z (x : spec_float) : Z :=
  match x with
  | S754_zero _ => 0
  | S754_nan => 0
  | S754_infinity s => cond_Zopp s (2 ^ 2098)
  | S754_finite s m e => cond_Zopp s (Zpos m * 2 ^ (e - emin64))
  end.

Definition SFsgn (x : spec_float) : comparison :=
  match x with
  | S754_zero _ | S754_nan => Eq
  | S754_infinity s | S754_finite s _ _ => if s then Lt else Gt
  end.

Definition SFis_nan (x : spec_float) : bool :=
  match x with S754_nan => true | _ => false end.

(** The position of a number on the integer line (meaningful off [NaN]). *)
Definition rank (x : float) : Z := SF2Z (Prim2SF x).

(** ** Arrays *)

(** [a[i]] for a possibly negative index: [undefined] out of range. *)
Definition js_get {A : Type} (a : list A) (i : Z) : option A :=
  if (i <? 0)%Z then None else a !! Z.to_nat i.

Section Sort.
  Context {A : Type}.
  Variable compareFn : A -> A -> float.

(** [x] goes in front of the first element it is not greater than. *)
Fixpoint sort_insert (x : A) (l : list A) : list A :=
  match l with
  | [] => [x]
  | y :: l' =>
      match sgn (compareFn x y) with
      | Gt => y :: sort_insert x l'
      | _ => x :: l
      end
  end.

(** [a.sort(compareFn)]: a stable insertion sort.  ECMAScript fixes the
    result (that of a stable sort) when [compareFn] is a consistent
    comparator, and leaves the order to the engine otherwise. *)
Definition js_sort (l : list A) : list A := foldr sort_insert [] l.
End Sort.

(** ** Type definitions (App.tsx, lines 11-20) *)

Record TimePoint := mkTimePoint { time : string; close : float }.

Record StockData := mkStockData {
  symbol : string;
  latestClose : float;
  changePct : float;
  history : list TimePoint;
}.

(** [SearchMatch]: its [symbol] field is [matchSymbol] here, the name
    [symbol] being taken by [StockData]. *)
Record SearchMatch := mkSearchMatch { matchSymbol : string; name : string }.

(** [RawTimeSeries], as [Object.entries] lists it: time and ['4. close']. *)
Definition RawTimeSeries := list (string * string).

(** What the host engine provides.  [parseFloat] answers [NaN] for a text
    that does not start with a number.  [dateTime s] is
    [new Date(s).getTime()]: milliseconds since the epoch, or [NaN] when
    the engine does not read [s] as a date (which texts it reads, beyond
    the ISO format, is for the engine to choose). *)
Class Host := {
  parseFloat : string -> float;
  dateTime : string -> float;
}.

(** ** The requests the component sends and what comes back *)

Inductive request :=
  | GetIntraday (sym : string)
  | GetSearch (keywords : string).

(** The outcome of [axios.get(DATA_API, ...)] and of reading
    [res.data['Time Series (5min)']].  [RequestFailed message]: the awaited
    request rejects, or reading the payload throws, with [e.message] being
    [message].  [IntradayData None]: the payload has no (truthy) time
    series. *)
Inductive intradayResponse :=
  | RequestFailed (message : string)
  | IntradayData (rawSeries : option RawTimeSeries).

(** The outcome of [axios.get(SEARCH_API, ...)]: [res.data.bestMatches]
    ([None] when it is missing), each match with its ['1. symbol'] and
    ['2. name']; [SearchFailed] when anything in the [try] block throws. *)
Inductive searchResponse :=
  | SearchFailed
  | SearchData (bestMatches : option (list (string * string))).

(** How a [try] block ends. *)
Inductive completion (A : Type) :=
  | Return (a : A)
  | Throw (message : string).
Arguments Return {A} a.
Arguments Throw {A} message.

(** ** Component state (App.tsx, lines 52-59) *)

Record State := mkState {
  symbols : list string;
  dataMap : gmap string StockData;
  loadingMap : gmap string bool;
  errorMap : gmap string string;
  selected : gset string;
  sortAsc : bool;
  query : string;
  suggestions : list SearchMatch;
}.

Definition initialState : State :=
  mkState ["AAPL"] ∅ ∅ ∅ ∅ true "" [].

Definition setSymbols (v : list string) (st : State) : State :=
  mkState v (dataMap st) (loadingMap st) (errorMap st) (selected st)
    (sortAsc st) (query st) (suggestions st).

Definition setDataMap (f : gmap string StockData -> gmap string StockData)
    (st : State) : State :=
  mkState (symbols st) (f (dataMap st)) (loadingMap st) (errorMap st)
    (selected st) (sortAsc st) (query st) (suggestions st).

Definition setLoadingMap (f : gmap string bool -> gmap string bool)
    (st : State) : State :=
  mkState (symbols st) (dataMap st) (f (loadingMap st)) (errorMap st)
    (selected st) (sortAsc st) (query st) (suggestions st).

Definition setErrorMap (f : gmap string string -> gmap string string)
    (st : State) : State :=
  mkState (symbols st) (dataMap st) (loadingMap st) (f (errorMap st))
    (selected st) (sortAsc st) (query st) (suggestions st).

Definition setSelected (f : gset string -> gset string) (st : State) : State :=
  mkState (symbols st) (dataMap st) (loadingMap st) (errorMap st)
    (f (selected st)) (sortAsc st) (query st) (suggestions st).

Definition setSortAsc (v : bool) (st : State) : State :=
  mkState (symbols st) (dataMap st) (loadingMap st) (errorMap st)
    (selected st) v (query st) (suggestions st).

Definition setQuery (v : string) (st : State) : State :=
  mkState (symbols st) (dataMap st) (loadingMap st) (errorMap st)
    (selected st) (sortAsc st) v (suggestions st).

Definition setSuggestions (v : list SearchMatch) (st : State) : State :=
  mkState (symbols st) (dataMap st) (loadingMap st) (errorMap st)
    (selected st) (sortAsc st) (query st) v.

(** [dataMap[sym]] is truthy: the symbol has a snapshot. *)
Definition hasData (st : State) (sym : string) : bool :=
  bool_decide (is_Some (dataMap st !! sym)).

(** [loadingMap[sym]] is truthy. *)
Definition isLoading (st : State) (sym : string) : bool :=
  default false (loadingMap st !! sym).

(** ** fetchStock (App.tsx, lines 62-96) *)

(** The message of [new Error('No data for ' + sym)]. *)
Definition noDataMessage (sym : string) : string := "No data for " +:+ sym.

(** The message of the [TypeError] raised by [last.close] or [prev.close]
    when the sample is [undefined] (V8's wording; every engine has one). *)
Definition typeErrorMessage : string :=
  "Cannot read properties of undefined (reading 'close')".

Section FetchStock.
  Context `{host : Host}.

(** Lines 73-75: the entries as points, sorted by time. *)
Definition toPoints (rawSeries : RawTimeSeries) : list TimePoint :=
  js_sort (fun a b => (dateTime (time a) - dateTime (time b))%float)
    ((fun '(t, c) => mkTimePoint t (parseFloat c)) <$> rawSeries).

(** Lines 70-88: the [try] block from the response on, up to the value
    handed to [setDataMap]. *)
Definition fetchStock_try (sym : string) (res : intradayResponse)
    : completion StockData :=
  match res with
  | RequestFailed message => Throw message
  | IntradayData None => Throw (noDataMessage sym)
  | IntradayData (Some rawSeries) =>
      let points := toPoints rawSeries in
      let n := Z.of_nat (length points) in
      match js_get points (n - 1), js_get points (n - 2) with
      | Some last, Some prev =>
          Return (mkStockData sym (close last)
                    ((close last - close prev) / close prev * 100)%float
                    points)
      | _, _ => Throw typeErrorMessage
      end
  end.

(** Lines 63-64: what [fetchStock(sym)] does before it awaits. *)
Definition fetchStock_begin (sym : string) (st : State) : State :=
  setErrorMap (fun m => <[sym := ""]> m)
    (setLoadingMap (fun m => <[sym := true]> m) st).

(** Lines 65-95: what it does when the request has settled. *)
Definition fetchStock_settle (sym : string) (res : intradayResponse)
    (st : State) : State :=
  let st' :=
    match fetchStock_try sym res with
    | Return d => setDataMap (fun m => <[sym := d]> m) st
    | Throw message =>
        setDataMap (fun m => delete sym m)
          (setErrorMap (fun m => <[sym := message]> m) st)
    end in
  setLoadingMap (fun m => <[sym := false]> m) st'.

(** A whole fetch with nothing in between. *)
Definition fetchStock (sym : string) (res : intradayResponse)
    (st : State) : State :=
  fetchStock_settle sym res (fetchStock_begin sym st).
End FetchStock.

(** ** fetchSuggestions and the handlers (App.tsx, lines 99-137) *)

(** Lines 105-113, when the search request has settled. *)
Definition fetchSuggestions_settle (res : searchResponse) (st : State) : State :=
  match res with
  | SearchData bestMatches =>
      let matches := default [] bestMatches in
      let list := (fun '(s, n) => mkSearchMatch s n) <$> matches in
      setSuggestions (take 5 list) st
  | SearchFailed => setSuggestions [] st
  end.

Definition handleQueryChange (v : string) (st : State) : State * list request :=
  let st' := setQuery v st in
  if (2 <=? String.length v)%nat then (st', [GetSearch v])
  else (setSuggestions [] st', []).

Definition handleAdd (sym : string) (st : State) : State :=
  let st' :=
    if bool_decide (sym ∈ symbols st) then st
    else setSymbols (symbols st ++ [sym]) st in
  setSuggestions [] (setQuery "" st').

Definition toggleSelect (sym : string) (st : State) : State :=
  setSelected
    (fun s => if bool_decide (sym ∈ s) then s ∖ {[sym]} else s ∪ {[sym]}) st.

(** ** The fetch trigger (App.tsx, lines 140-144) *)

(** The symbols the effect calls [fetchStock] for. *)
Definition effectTargets (st : State) : list string :=
  filter (fun sym => negb (hasData st sym) && negb (isLoading st sym) = true)
    (symbols st).

(** One run of the effect: every call reaches its [await]. *)
Definition fetchTrigger (st : State) : State * list request :=
  (foldl (fun s sym => fetchStock_begin sym s) st (effectTargets st),
   GetIntraday <$> effectTargets st).

(** Mounting the component: the first render and its effect run. *)
Definition mount : State * list request := fetchTrigger initialState.

(** ** The sorted rows (App.tsx, lines 147-153) *)

(** The comparator given to [sort]. *)
Definition compareRows (st : State) (a b : string) : float :=
  match dataMap st !! a, dataMap st !! b with
  | Some da, Some db =>
      if sortAsc st then (latestClose da - latestClose db)%float
      else (latestClose db - latestClose da)%float
  | _, _ => nan (* not reached: [sorted] compares symbols that have data *)
  end.

Definition sorted (st : State) : list string :=
  js_sort (compareRows st) (filter (fun sym => hasData st sym = true) (symbols st)).


(** ** Events and the renders that follow them *)

Inductive event :=
  | QueryChanged (v : string)                (* the input's [onChange] *)
  | SuggestionsSettled (res : searchResponse)
  | SuggestionPicked (sym : string)          (* a suggestion's [onClick] *)
  | RowClicked (sym : string)                (* a row's [onClick] *)
  | PriceHeaderClicked                       (* [setSortAsc(!sortAsc)] *)
  | FetchSettled (sym : string) (res : intradayResponse).

Section Dispatch.
  Context `{host : Host}.

Definition handleEvent (ev : event) (st : State) : State * list request :=
  match ev with
  | QueryChanged v => handleQueryChange v st
  | SuggestionsSettled res => (fetchSuggestions_settle res st, [])
  | SuggestionPicked sym => (handleAdd sym st, [])
  | RowClicked sym => (toggleSelect sym st, [])
  | PriceHeaderClicked => (setSortAsc (negb (sortAsc st)) st, [])
  | FetchSettled sym res => (fetchStock_settle sym res st, [])
  end.

(** Whether the handler replaces one of the effect's dependencies
    [symbols], [dataMap], [loadingMap].  Every setter call of the source
    passes a freshly built array or object, so a call is a change. *)
Definition depsChanged (ev : event) (st : State) : bool :=
  match ev with
  | SuggestionPicked sym => negb (bool_decide (sym ∈ symbols st))
  | FetchSettled _ _ => true
  | _ => false
  end.

(** An event, the render it causes (its updates batched) and the effect
    run that follows when a dependency changed. *)
Definition dispatch (ev : event) (st : State) : State * list request :=
  let '(st1, reqs) := handleEvent ev st in
  if depsChanged ev st then
    let '(st2, reqs') := fetchTrigger st1 in (st2, reqs ++ reqs')
  else (st1, reqs).

(** A sequence of events, each with its render and effect run. *)
Definition run (evs : list event) (st : State) : State :=
  foldl (fun s ev => fst (dispatch ev s)) st evs.
End Dispatch.

(** ** The trimmed length the specification speaks of *)

(** The ASCII white space and line terminators [String.prototype.trim]
    removes. *)
Definition isWhiteSpace (c : Ascii.ascii) : bool :=
  let n := Ascii.nat_of_ascii c in
  (n =? 32)%nat || ((9 <=? n)%nat && (n <=? 13)%nat).

Fixpoint trimStart (s : string) : string :=
  match s with
  | EmptyString => EmptyString
  | String c s' => if isWhiteSpace c then trimStart s' else s
  end.

Fixpoint trimEnd (s : string) : string :=
  match s with
  | EmptyString => EmptyString
  | String c s' =>
      match trimEnd s' with
      | EmptyString => if isWhiteSpace c then EmptyString else String c EmptyString
      | t => String c t
      end
  end.

Definition spec_trimmedLength (s : string) : nat :=
  String.length (trimEnd (trimStart s)).

(** ** A host for the worked scenarios *)

(** An engine that reads the three prices and the three time stamps of the
    scenarios below and nothing else: [NaN] for any other text. *)
Definition scenarioHost : Host := {|
  parseFloat s :=
    if (s =? "100.00")%string then 100%float
    else if (s =? "101.00")%string then 101%float
    else if (s =? "99.00")%string then 99%float
    else nan;
  dateTime s :=
    if (s =? "2024-01-02 09:30:00")%string then 1704187800000%float
    else if (s =? "2024-01-02 09:35:00")%string then 1704188100000%float
    else if (s =? "2024-01-02 09:40:00")%string then 1704188400000%float
    else nan;
|}.

(** The intraday response of the first scenario: three samples in
    ascending time order, closing at 100.00, 101.00 and 99.00. *)
Definition scenarioSeries : RawTimeSeries :=
  [("2024-01-02 09:30:00", "100.00");
   ("2024-01-02 09:35:00", "101.00");
   ("2024-01-02 09:40:00", "99.00")].

(** The snapshot the component stores for it. *)
Definition scenarioSnapshot : StockData :=
  mkStockData "AAPL" 99%float ((99 - 101) / 101 * 100)%float
    [mkTimePoint "2024-01-02 09:30:00" 100%float;
     mkTimePoint "2024-01-02 09:35:00" 101%float;
     mkTimePoint "2024-01-02 09:40:00" 99%float].


(** The state once the first scenario's fetch has succeeded. *)
Definition scenarioLoaded : State :=
  fetchStock (host := scenarioHost) "AAPL" (IntradayData (Some scenarioSeries))
    initialState.

(** A snapshot with a given price, for states built by hand. *)
Definition quote (sym : string) (price : float) : StockData :=
  mkStockData sym price 0%float [].

(** A session in which one response carries a close that is no number:
    two symbols are picked after mounting and the three fetches settle. *)
Definition nanSession : list event :=
  [SuggestionPicked "MSFT";
   SuggestionPicked "IBM";
   FetchSettled "AAPL"
     (IntradayData (Some [("2024-01-02 09:30:00", "100.00");
                          ("2024-01-02 09:35:00", "101.00")]));
   FetchSettled "MSFT"
     (IntradayData (Some [("2024-01-02 09:30:00", "100.00");
                          ("2024-01-02 09:35:00", "n/a")]));
   FetchSettled "IBM"
     (IntradayData (Some [("2024-01-02 09:30:00", "100.00");
                          ("2024-01-02 09:35:00", "99.00")]))].

(** The state it ends in: the snapshot of MSFT has a [NaN] price. *)
Definition nanState : State := run (host := scenarioHost) nanSession (fst mount).

(** A state with three priced symbols and one still loading, sorted
    descending. *)
Definition pricedState : State :=
  mkState ["AAPL"; "MSFT"; "TSLA"; "IBM"]
    (<["AAPL" := quote "AAPL" 190.5%float]>
       (<["MSFT" := quote "MSFT" 410.25%float]>
          (<["IBM" := quote "IBM" 170.25%float]> ∅)))
    {["TSLA" := true]} ∅ ∅ false "" [].


(** ** What is rendered (App.tsx, lines 195-235) *)




(** The chart panel of a selected symbol (the callback of lines 219-235):
    the error text when [errorMap[sym]] is truthy, and the labels and the
    data of the line chart, or [None] where the panel says that no data is
    available. *)
Record ChartPanel := mkChartPanel {
  panelSymbol : string;
  panelError : option string;
  panelChart : option (list string * list float);
}.

Definition chartPanel (st : State) (sym : string) : ChartPanel :=
  mkChartPanel sym
    (match errorMap st !! sym with
     | Some e => if (e =? "")%string then None else Some e
     | None => None
     end)
    ((fun d => (time <$> history d, close <$> history d)) <$> dataMap st !! sym).

(** ** Sessions: the events that can happen *)

(** The symbols of the intraday requests among the requests sent. *)
Definition intradaySymbols (reqs : list request) : list string :=
  omap (fun r => match r with GetIntraday sym => Some sym | GetSearch _ => None end)
    reqs.

(** One request less in flight. *)
Fixpoint removeOne (x : string) (l : list string) : list string :=
  match l with
  | [] => []
  | y :: l' => if decide (x = y) then l' else y :: removeOne x l'
  end.

(** An intraday response arrives only for a request in flight, and a row
    is clicked only where the table has one; the other events can happen
    at any time. *)
Definition enabled (ev : event) (st : State) (inFlight : list string) : Prop :=
  match ev with
  | FetchSettled sym _ => sym ∈ inFlight
  | RowClicked sym => sym ∈ sorted st
  | _ => True
  end.

(** The intraday requests in flight after an event. *)
Definition inFlightAfter (ev : event) (inFlight : list string)
    (sent : list request) : list string :=
  match ev with
  | FetchSettled sym _ => removeOne sym inFlight
  | _ => inFlight
  end ++ intradaySymbols sent.

Section Session.
  Context `{host : Host}.

(** The states the component reaches, each with the symbols whose intraday
    request is in flight: the mounted component, and from there any
    enabled event with its render and effect run. *)
Inductive reachable : State -> list string -> Prop :=
  | reachable_mount :
      reachable (fst mount) (intradaySymbols (snd mount))
  | reachable_step (ev : event) (st : State) (inFlight : list string) :
      reachable st inFlight ->
      enabled ev st inFlight ->
      reachable (fst (dispatch ev st))
        (inFlightAfter ev inFlight (snd (dispatch ev st))).

(** The states that are rendered: the first render, every reached state,
    and the render between an event's handler and the effect run. *)
Inductive rendered : State -> Prop :=
  | rendered_first : rendered initialState
  | rendered_reached (st : State) (inFlight : list string) :
      reachable st inFlight -> rendered st
  | rendered_handled (ev : event) (st : State) (inFlight : list string) :
      reachable st inFlight ->
      enabled ev st inFlight ->
      rendered (fst (handleEvent ev st)).
End Session.

(** What holds after an event's handler, before the effect has run. *)
Definition handledInv (st : State) (inFlight : list string) : Prop :=
  NoDup (symbols st) /\
  NoDup inFlight /\
  (forall sym, sym ∈ inFlight <-> isLoading st sym = true) /\
  (forall sym, isLoading st sym = true ->
               sym ∈ symbols st /\ dataMap st !! sym = None) /\
  (forall sym, is_Some (dataMap st !! sym) -> sym ∈ symbols st) /\
  (forall sym e, errorMap st !! sym = Some e ->
                 e = "" \/ sym ∈ effectTargets st) /\
  (forall sym, sym ∈ selected st -> is_Some (dataMap st !! sym)).

(** What holds in every reached state. *)
Definition settledInv (st : State) (inFlight : list string) : Prop :=
  handledInv st inFlight /\
  effectTargets st = [] /\
  (forall sym e, errorMap st !! sym = Some e -> e = "").

(** * Properties *)

(** ** Binary64 subtraction has the sign of the comparison

    The two comparators of the source are differences of numbers.  On
    numbers other than [NaN] the sign of the rounded difference is the
    order of the operands: a difference of two distinct binary64 values
    never rounds to zero. *)

Section Binary64.
  Local Open Scope Z_scope.

Lemma digits2_pos_bounds (m : positive) :
  2 ^ (Zpos (digits2_pos m) - 1) <= Zpos m < 2 ^ Zpos (digits2_pos m).
Proof.
  induction m as [p IH|p IH|]; cbn [digits2_pos].
  - rewrite Pos2Z.inj_succ. change (Zpos p~1) with (2 * Zpos p + 1).
    replace (Z.succ (Zpos (digits2_pos p)) - 1) with (Z.succ (Zpos (digits2_pos p) - 1)) by lia.
    rewrite !Z.pow_succ_r by lia.
    revert IH. generalize (2 ^ (Zpos (digits2_pos p) - 1)) (2 ^ Zpos (digits2_pos p)). lia.
  - rewrite Pos2Z.inj_succ. change (Zpos p~0) with (2 * Zpos p).
    replace (Z.succ (Zpos (digits2_pos p)) - 1) with (Z.succ (Zpos (digits2_pos p) - 1)) by lia.
    rewrite !Z.pow_succ_r by lia.
    revert IH. generalize (2 ^ (Zpos (digits2_pos p) - 1)) (2 ^ Zpos (digits2_pos p)). lia.
  - cbn. lia.
Qed.

Lemma valid_finite (m : positive) (e : Z) :
  bounded prec emax m e = true ->
  emin64 <= e <= 971 /\ Zpos (digits2_pos m) <= 53 /\
  (emin64 < e -> Zpos (digits2_pos m) = 53).
Proof.
  unfold bounded, canonical_mantissa, fexp, SpecFloat.emin, prec, emax, emin64.
  intros H. apply andb_true_iff in H as [H1 H2].
  apply Z.eqb_eq in H1. apply Z.leb_le in H2. lia.
Qed.

Lemma finite_magnitude (m : positive) (e : Z) :
  bounded prec emax m e = true ->
  0 < Zpos m * 2 ^ (e - emin64) < 2 ^ 2098.
Proof.
  intros H. apply valid_finite in H as (He & Hd & _).
  pose proof (digits2_pos_bounds m) as [_ Hm].
  assert (Hp : 0 < 2 ^ (e - emin64)) by (apply Z.pow_pos_nonneg; unfold emin64 in *; lia).
  split; [lia|].
  apply Z.lt_le_trans with (2 ^ 53 * 2 ^ (e - emin64)).
  - apply Z.mul_lt_mono_pos_r; [exact Hp|].
    apply Z.lt_le_trans with (1 := Hm). apply Z.pow_le_mono_r; lia.
  - rewrite <- Z.pow_add_r by (unfold emin64 in *; lia).
    apply Z.pow_le_mono_r; unfold emin64 in *; lia.
Qed.

Lemma finite_exponent_order (m1 m2 : positive) (e1 e2 : Z) :
  bounded prec emax m1 e1 = true -> bounded prec emax m2 e2 = true ->
  e1 < e2 ->
  Zpos m1 * 2 ^ (e1 - emin64) < Zpos m2 * 2 ^ (e2 - emin64).
Proof.
  intros H1 H2 Hlt.
  apply valid_finite in H1 as (He1 & Hd1 & _).
  apply valid_finite in H2 as (He2 & _ & Hd2).
  pose proof (digits2_pos_bounds m1) as [_ Hm1].
  pose proof (digits2_pos_bounds m2) as [Hm2 _].
  rewrite Hd2 in Hm2 by lia. change (53 - 1) with 52 in Hm2.
  assert (Hm1' : Zpos m1 < 2 ^ 53)
    by (apply Z.lt_le_trans with (1 := Hm1); apply Z.pow_le_mono_r; lia).
  assert (Hp : 0 < 2 ^ (e1 - emin64)) by (apply Z.pow_pos_nonneg; lia).
  replace (e2 - emin64) with ((e2 - e1 - 1) + 1 + (e1 - emin64)) by lia.
  rewrite !Z.pow_add_r by lia.
  assert (Hq : 1 <= 2 ^ (e2 - e1 - 1))
    by (change 1 with (2 ^ 0) at 1; apply Z.pow_le_mono_r; lia).
  change (2 ^ 1) with 2. change (2 ^ 53) with (2 * 2 ^ 52) in Hm1'.
  assert (Ha : 0 < 2 ^ 52) by reflexivity.
  revert Ha Hm2 Hm1' Hp Hq.
  generalize (2 ^ 52) (2 ^ (e2 - e1 - 1)) (2 ^ (e1 - emin64)) (Zpos m1) (Zpos m2).
  intros a q p x y Ha Hy Hx Hp Hq.
  assert (x * p < 2 * a * p) by (apply Z.mul_lt_mono_pos_r; lia).
  assert (2 * a * p <= 2 * y * p) by (apply Z.mul_le_mono_nonneg_r; lia).
  assert (0 <= 2 * y * p) by (apply Z.mul_nonneg_nonneg; lia).
  assert (2 * y * p * 1 <= 2 * y * p * q) by (apply Z.mul_le_mono_nonneg_l; lia).
  lia.
Qed.

Lemma finite_compare (m1 m2 : positive) (e1 e2 : Z) :
  bounded prec emax m1 e1 = true -> bounded prec emax m2 e2 = true ->
  match e1 ?= e2 with
  | Lt => Lt
  | Gt => Gt
  | Eq => Pos.compare_cont Eq m1 m2
  end = (Zpos m1 * 2 ^ (e1 - emin64) ?= Zpos m2 * 2 ^ (e2 - emin64)).
Proof.
  intros H1 H2. destruct (Z.compare_spec e1 e2) as [->|Hlt|Hgt].
  - pose proof (finite_magnitude _ _ H2) as [Hp _].
    assert (0 < 2 ^ (e2 - emin64)) by (apply Z.pow_pos_nonneg; [lia|]; apply valid_finite in H2; lia).
    rewrite <- Zmult_compare_compat_r by lia. reflexivity.
  - symmetry. apply Z.compare_lt_iff. now apply finite_exponent_order.
  - symmetry. apply Z.compare_gt_iff. now apply finite_exponent_order.
Qed.

Lemma SFcompare_SF2Z (x y : spec_float) :
  valid_binary x = true -> valid_binary y = true ->
  SFis_nan x = false -> SFis_nan y = false ->
  SFcompare x y = Some (SF2Z x ?= SF2Z y).
Proof.
  intros Vx Vy Nx Ny.
  destruct x as [sx|sx| |sx mx ex], y as [sy|sy| |sy my ey]; try discriminate;
    cbn [valid_binary] in Vx, Vy;
    try pose proof (finite_magnitude _ _ Vx) as Mx;
    try pose proof (finite_magnitude _ _ Vy) as My;
    assert (Hinf : 0 < 2 ^ 2098) by reflexivity;
    cbn [SFcompare SF2Z]; f_equal;
    try (rewrite (finite_compare _ _ _ _ Vx Vy));
    repeat match goal with s : bool |- _ => destruct s end;
    cbn [cond_Zopp CompOpp];
    try reflexivity;
    try (symmetry; first [apply Z.compare_lt_iff | apply Z.compare_gt_iff | apply Z.compare_eq_iff]; lia).
  rewrite Z.compare_opp, <- (finite_compare _ _ _ _ Vy Vx), (Z.compare_antisym ex ey).
  destruct (ex ?= ey); cbn [CompOpp]; try reflexivity.
  change (Pos.compare_cont Eq) with Pos.compare. symmetry. apply Pos.compare_antisym.
Qed.

Lemma shr_1_m (mrs : shr_record) :
  0 <= shr_m mrs -> shr_m (shr_1 mrs) = shr_m mrs / 2.
Proof.
  destruct mrs as [m r s]. cbn [shr_m]. intros Hm.
  rewrite <- Z.div2_div.
  destruct m as [|[p|p|]|p]; try reflexivity; lia.
Qed.

Lemma iter_shr_m (p : positive) : forall mrs,
  0 <= shr_m mrs ->
  shr_m (@SpecFloat.iter_pos _ shr_1 p mrs) = shr_m mrs / 2 ^ Zpos p.
Proof.
  induction p as [p IH|p IH|]; intros mrs Hm; cbn [SpecFloat.iter_pos].
  - assert (H1 : 0 <= shr_m (shr_1 mrs))
      by (rewrite shr_1_m by exact Hm; apply Z.div_pos; lia).
    assert (H2 : 0 <= shr_m (@SpecFloat.iter_pos _ shr_1 p (shr_1 mrs)))
      by (rewrite IH by exact H1; apply Z.div_pos; [exact H1|apply Z.pow_pos_nonneg; lia]).
    rewrite IH, IH, shr_1_m by assumption.
    replace (Zpos p~1) with (1 + Zpos p + Zpos p) by lia.
    rewrite !Z.pow_add_r by lia. change (2 ^ 1) with 2.
    assert (0 < 2 ^ Zpos p) by (apply Z.pow_pos_nonneg; lia).
    rewrite !Z.div_div by lia. f_equal. ring.
  - assert (H2 : 0 <= shr_m (@SpecFloat.iter_pos _ shr_1 p mrs))
      by (rewrite IH by exact Hm; apply Z.div_pos; [exact Hm|apply Z.pow_pos_nonneg; lia]).
    rewrite IH, IH by assumption.
    replace (Zpos p~0) with (Zpos p + Zpos p) by lia.
    rewrite !Z.pow_add_r by lia.
    assert (0 < 2 ^ Zpos p) by (apply Z.pow_pos_nonneg; lia).
    rewrite !Z.div_div by lia. reflexivity.
  - rewrite shr_1_m by exact Hm. reflexivity.
Qed.

Lemma shr_record_of_loc_m (m : Z) (l : location) :
  shr_m (shr_record_of_loc m l) = m.
Proof. destruct l as [|[]]; reflexivity. Qed.

Lemma shr_fexp_pos (m e : Z) (l : location) :
  0 < m -> emin64 <= e ->
  0 < shr_m (fst (shr_fexp prec emax m e l)) /\
  emin64 <= snd (shr_fexp prec emax m e l).
Proof.
  intros Hm He. unfold shr_fexp, shr.
  destruct m as [|p|p]; try lia. cbn [Zdigits2].
  pose proof (digits2_pos_bounds p) as [Hlo _].
  remember (fexp prec emax (Zpos (digits2_pos p) + e) - e) as n eqn:Hn.
  unfold fexp, SpecFloat.emin, prec, emax, emin64 in *.
  destruct n as [|n|n]; cbn [fst snd]; rewrite ?shr_record_of_loc_m; try lia.
  rewrite iter_shr_m by (rewrite shr_record_of_loc_m; lia).
  rewrite shr_record_of_loc_m. split; [|lia].
  apply Z.div_str_pos. split; [apply Z.pow_pos_nonneg; lia|].
  apply Z.le_trans with (2 := Hlo). apply Z.pow_le_mono_r; lia.
Qed.

Lemma round_nearest_even_pos (m : Z) (l : location) :
  0 < m -> 0 < round_nearest_even m l.
Proof.
  intros Hm. destruct l as [|[]]; cbn [round_nearest_even]; try lia.
  destruct (Z.even m); lia.
Qed.

Lemma binary_round_aux_sign (sx : bool) (m e : Z) (l : location) :
  0 < m -> emin64 <= e ->
  SFsgn (binary_round_aux prec emax sx m e l) = if sx then Lt else Gt.
Proof.
  intros Hm He. unfold binary_round_aux.
  pose proof (shr_fexp_pos m e l Hm He) as [H1 H2].
  destruct (shr_fexp prec emax m e l) as [mrs' e']. cbn [fst snd] in H1, H2.
  pose proof (round_nearest_even_pos _ (loc_of_shr_record mrs') H1) as H3.
  pose proof (shr_fexp_pos _ e' loc_Exact H3 H2) as [H4 _].
  destruct (shr_fexp prec emax _ e' loc_Exact) as [mrs'' e'']. cbn [fst] in H4.
  destruct (shr_m mrs'') as [|p|p]; try lia.
  destruct (e'' <=? emax - prec); reflexivity.
Qed.

Lemma binary_round_sign (sx : bool) (mx : positive) (ex : Z) :
  emin64 <= ex ->
  SFsgn (binary_round prec emax sx mx ex) = if sx then Lt else Gt.
Proof.
  intros He. unfold binary_round, shl_align.
  assert (Hf : emin64 <= fexp prec emax (Zpos (digits2_pos mx) + ex))
    by (unfold fexp, SpecFloat.emin, prec, emax, emin64; lia).
  destruct (fexp prec emax (Zpos (digits2_pos mx) + ex) - ex) eqn:E;
    apply binary_round_aux_sign; lia.
Qed.

Lemma binary_normalize_sign (m e : Z) (szero : bool) :
  emin64 <= e ->
  SFsgn (binary_normalize prec emax m e szero) = (m ?= 0).
Proof.
  intros He. destruct m as [|p|p]; cbn [binary_normalize].
  - reflexivity.
  - now rewrite binary_round_sign.
  - now rewrite binary_round_sign.
Qed.

Lemma iter_xO_value (m d : positive) :
  Zpos (Pos.iter xO m d) = Zpos m * 2 ^ Zpos d.
Proof.
  induction d as [|d IH] using Pos.peano_ind.
  - cbn. lia.
  - rewrite Pos.iter_succ, Pos2Z.inj_succ, Z.pow_succ_r by lia.
    change (Zpos (Pos.iter xO m d)~0) with (2 * Zpos (Pos.iter xO m d)).
    rewrite IH. ring.
Qed.

Lemma shl_align_value (m : positive) (e e' : Z) :
  e' <= e ->
  Zpos (fst (shl_align m e e')) = Zpos m * 2 ^ (e - e').
Proof.
  intros Hle. unfold shl_align.
  destruct (e' - e) as [|d|d] eqn:E; cbn [fst]; try lia.
  - replace (e - e') with 0 by lia. cbn. lia.
  - replace (e - e') with (Zpos d) by lia. apply iter_xO_value.
Qed.

Lemma SFsub_sign (x y : spec_float) :
  valid_binary x = true -> valid_binary y = true ->
  SFsgn (SF64sub x y) =
  if SFis_nan x || SFis_nan y then Eq else (SF2Z x ?= SF2Z y).
Proof.
  intros Vx Vy.
  destruct x as [sx|sx| |sx mx ex], y as [sy|sy| |sy my ey];
    cbn [valid_binary] in Vx, Vy;
    try pose proof (finite_magnitude _ _ Vx) as Mx;
    try pose proof (finite_magnitude _ _ Vy) as My;
    assert (Hinf : 0 < 2 ^ 2098) by reflexivity;
    unfold SF64sub; cbn [SFsub SFis_nan orb SF2Z SFsgn negb]; try reflexivity.
  all: try (repeat match goal with s : bool |- _ => destruct s end;
            cbn [cond_Zopp SFsgn negb]; symmetry;
            first [apply Z.compare_lt_iff | apply Z.compare_gt_iff | apply Z.compare_eq_iff];
            lia).
  apply valid_finite in Vx as (Hex & _), Vy as (Hey & _).
  set (ez := IntDef.Z.min ex ey).
  assert (Hez : ez = Z.min ex ey) by reflexivity.
  rewrite binary_normalize_sign by lia.
  rewrite !shl_align_value by lia.
  replace (ex - emin64) with ((ex - ez) + (ez - emin64)) by lia.
  replace (ey - emin64) with ((ey - ez) + (ez - emin64)) by lia.
  rewrite !Z.pow_add_r by lia.
  assert (Hp : 0 < 2 ^ (ez - emin64)) by (apply Z.pow_pos_nonneg; lia).
  rewrite <- Z.compare_sub.
  rewrite (Zmult_compare_compat_r _ _ (2 ^ (ez - emin64))) by lia.
  f_equal; [destruct sx|destruct sy]; cbn [cond_Zopp]; ring.
Qed.

(** *** The same facts on primitive floats *)

Lemma Prim2SF_nan (x : float) : SFis_nan (Prim2SF x) = is_nan x.
Proof.
  unfold Prim2SF. destruct (is_nan x); [reflexivity|].
  destruct (is_zero x); [reflexivity|].
  destruct (is_infinity x); [reflexivity|].
  repeat match goal with
       | |- context [let (_, _) := ?p in _] => destruct p
       end.
  destruct (shr_m _); reflexivity.
Qed.

Lemma sgn_spec (v : float) : sgn v = SFsgn (Prim2SF v).
Proof.
  unfold sgn. rewrite !ltb_spec.
  change (Prim2SF 0) with (S754_zero false).
  destruct (Prim2SF v) as [s|s| |s m e]; try destruct s; reflexivity.
Qed.

Lemma sgn_sub (x y : float) :
  is_nan x = false -> is_nan y = false ->
  sgn (x - y) = (rank x ?= rank y).
Proof.
  intros Hx Hy.
  rewrite sgn_spec, sub_spec, SFsub_sign by apply Prim2SF_valid.
  now rewrite !Prim2SF_nan, Hx, Hy.
Qed.

Lemma sgn_sub_nan (x y : float) :
  is_nan x || is_nan y = true -> sgn (x - y) = Eq.
Proof.
  intros H.
  rewrite sgn_spec, sub_spec, SFsub_sign by apply Prim2SF_valid.
  now rewrite !Prim2SF_nan, H.
Qed.

Lemma leb_rank (x y : float) :
  is_nan x = false -> is_nan y = false ->
  (x <=? y)%float = (rank x <=? rank y).
Proof.
  intros Hx Hy. rewrite leb_spec. unfold SFleb, rank, Z.leb.
  rewrite SFcompare_SF2Z by (apply Prim2SF_valid || now rewrite Prim2SF_nan).
  now destruct (_ ?= _).
Qed.

Lemma ltb_rank (x y : float) :
  is_nan x = false -> is_nan y = false ->
  (x <? y)%float = (rank x <? rank y).
Proof.
  intros Hx Hy. rewrite ltb_spec. unfold SFltb, rank, Z.ltb.
  rewrite SFcompare_SF2Z by (apply Prim2SF_valid || now rewrite Prim2SF_nan).
  now destruct (_ ?= _).
Qed.



End Binary64.

(** ** Array.prototype.sort *)

Section SortFacts.
  Context {A : Type} (compareFn : A -> A -> float).

Lemma sort_insert_Permutation (x : A) (l : list A) :
  sort_insert compareFn x l ≡ₚ x :: l.
Proof.
  induction l as [|y l IH]; cbn [sort_insert]; [done|].
  destruct (sgn (compareFn x y)); try done.
  rewrite IH. apply Permutation_swap.
Qed.

Lemma js_sort_Permutation (l : list A) : js_sort compareFn l ≡ₚ l.
Proof.
  induction l as [|x l IH]; [done|].
  change (js_sort compareFn (x :: l))
    with (sort_insert compareFn x (js_sort compareFn l)).
  rewrite sort_insert_Permutation. now rewrite IH.
Qed.

Lemma js_sort_length (l : list A) : length (js_sort compareFn l) = length l.
Proof. apply Permutation_length, js_sort_Permutation. Qed.

  (** The order of the result, for a comparator that decides a relation
      [R] on the elements that satisfy [P]. *)
  Context (R : relation A) (P : A -> Prop).
  Hypothesis gt_sound :
    forall x y, P x -> P y -> sgn (compareFn x y) = Gt -> R y x.
  Hypothesis le_sound :
    forall x y, P x -> P y -> sgn (compareFn x y) <> Gt -> R x y.
  Hypothesis R_trans :
    forall x y z, P x -> P y -> P z -> R x y -> R y z -> R x z.

Lemma StronglySorted_sort_insert (x : A) (l : list A) :
  P x -> Forall P l -> StronglySorted R l ->
  StronglySorted R (sort_insert compareFn x l).
Proof.
  intros Px. induction l as [|y l IH]; intros Pl Sl; cbn [sort_insert].
  - repeat constructor.
  - apply Forall_cons in Pl as [Py Pl].
    apply StronglySorted_inv in Sl as [Sl Hy].
    destruct (sgn (compareFn x y)) eqn:E.
    + constructor; [now constructor|].
      assert (Rxy : R x y) by (apply le_sound; congruence).
      constructor; [exact Rxy|].
      rewrite Forall_forall in Hy, Pl |- *. eauto.
    + constructor; [now constructor|].
      assert (Rxy : R x y) by (apply le_sound; congruence).
      constructor; [exact Rxy|].
      rewrite Forall_forall in Hy, Pl |- *. eauto.
    + constructor; [now apply IH|].
      rewrite sort_insert_Permutation. constructor; [|exact Hy].
      now apply gt_sound.
Qed.

Lemma StronglySorted_js_sort (l : list A) :
  Forall P l -> StronglySorted R (js_sort compareFn l).
Proof.
  induction l as [|x l IH]; intros Pl; [constructor|].
  apply Forall_cons in Pl as [Px Pl].
  change (js_sort compareFn (x :: l))
    with (sort_insert compareFn x (js_sort compareFn l)).
  apply StronglySorted_sort_insert; [exact Px| |now apply IH].
  now rewrite js_sort_Permutation.
Qed.

End SortFacts.

(** ** Sorting by a difference of numbers *)

Section DifferenceSort.
  Context {A : Type} (key : A -> float).


Lemma StronglySorted_sort_descending (l : list A) :
  Forall (fun a => is_nan (key a) = false) l ->
  StronglySorted (fun a b => (key b <=? key a)%float = true)
    (js_sort (fun a b => (key b - key a)%float) l).
Proof.
  apply StronglySorted_js_sort.
  - intros x y Px Py H. rewrite sgn_sub in H by assumption.
    rewrite leb_rank by assumption.
    apply Z.compare_gt_iff in H. apply Z.leb_le. lia.
  - intros x y Px Py H. rewrite sgn_sub in H by assumption.
    rewrite leb_rank by assumption. apply Z.leb_le.
    destruct (Z.compare_spec (rank (key y)) (rank (key x))); [lia|lia|congruence].
  - intros x y z Px Py Pz. rewrite !leb_rank by assumption.
    rewrite !Z.leb_le. lia.
Qed.


End DifferenceSort.

(** ** Reading the last two elements of an array *)

Lemma list_last_two {A : Type} (l : list A) :
  2 <= length l -> exists front prev last, l = front ++ [prev; last].
Proof.
  intros Hlen.
  destruct (decide (l = [])) as [->|Hne]; [cbn in Hlen; lia|].
  apply exists_last in Hne as (l1 & last & ->).
  destruct (decide (l1 = [])) as [->|Hne1]; [cbn in Hlen; lia|].
  apply exists_last in Hne1 as (front & prev & ->).
  exists front, prev, last. now rewrite <- app_assoc.
Qed.

Lemma js_get_last_two {A : Type} (front : list A) (prev last : A) :
  let a := front ++ [prev; last] in
  js_get a (Z.of_nat (length a) - 1) = Some last /\
  js_get a (Z.of_nat (length a) - 2) = Some prev.
Proof.
  cbn zeta. unfold js_get. rewrite length_app. cbn [length].
  split.
  - destruct (Z.ltb_spec (Z.of_nat (length front + 2) - 1) 0); [lia|].
    replace (Z.to_nat (Z.of_nat (length front + 2) - 1))
      with (length front + 1) by lia.
    rewrite lookup_app_r by lia.
    now replace (length front + 1 - length front) with 1 by lia.
  - destruct (Z.ltb_spec (Z.of_nat (length front + 2) - 2) 0); [lia|].
    replace (Z.to_nat (Z.of_nat (length front + 2) - 2))
      with (length front + 0) by lia.
    rewrite lookup_app_r by lia.
    now replace (length front + 0 - length front) with 0 by lia.
Qed.

Lemma js_get_short {A : Type} (a : list A) :
  length a < 2 ->
  js_get a (Z.of_nat (length a) - 1) = None \/
  js_get a (Z.of_nat (length a) - 2) = None.
Proof.
  intros Hlen. destruct a as [|x [|y a]]; cbn in Hlen; try lia.
  - now left.
  - now right.
Qed.

(** ** fetchStock *)

Section FetchFacts.
  Context `{host : Host}.

Lemma toPoints_length (rawSeries : RawTimeSeries) :
  length (toPoints rawSeries) = length rawSeries.
Proof. unfold toPoints. now rewrite js_sort_length, length_fmap. Qed.

Lemma fetchStock_try_series (sym : string) (rawSeries : RawTimeSeries)
    (front : list TimePoint) (prev last : TimePoint) :
  toPoints rawSeries = front ++ [prev; last] ->
  fetchStock_try sym (IntradayData (Some rawSeries)) =
  Return (mkStockData sym (close last)
            ((close last - close prev) / close prev * 100)%float
            (toPoints rawSeries)).
Proof.
  intros E. cbn [fetchStock_try]. cbv zeta.
  destruct (js_get_last_two front prev last) as [Hl Hp].
  rewrite <- E in Hl, Hp. now rewrite Hl, Hp.
Qed.

Lemma fetchStock_try_short (sym : string) (rawSeries : RawTimeSeries) :
  length rawSeries < 2 ->
  fetchStock_try sym (IntradayData (Some rawSeries)) = Throw typeErrorMessage.
Proof.
  intros Hlen. rewrite <- toPoints_length in Hlen.
  cbn [fetchStock_try]. cbv zeta.
  destruct (js_get_short _ Hlen) as [E|E]; rewrite E; [reflexivity|].
  now destruct (js_get _ (_ - 1)).
Qed.

Lemma fetchStock_try_Return (sym : string) (res : intradayResponse)
    (d : StockData) :
  fetchStock_try sym res = Return d ->
  exists rawSeries front prev last,
    res = IntradayData (Some rawSeries) /\
    toPoints rawSeries = front ++ [prev; last] /\
    d = mkStockData sym (close last)
          ((close last - close prev) / close prev * 100)%float
          (toPoints rawSeries).
Proof.
  destruct res as [message|[rawSeries|]]; try discriminate.
  intros H. exists rawSeries.
  destruct (decide (2 <= length rawSeries)) as [Hlen|Hlen].
  - rewrite <- toPoints_length in Hlen.
    destruct (list_last_two _ Hlen) as (front & prev & last & E).
    exists front, prev, last. rewrite (fetchStock_try_series _ _ _ _ _ E) in H.
    now injection H as <-.
  - rewrite fetchStock_try_short in H by lia. discriminate.
Qed.

Lemma fetchStock_settle_Return (sym : string) (res : intradayResponse)
    (d : StockData) (st : State) :
  fetchStock_try sym res = Return d ->
  fetchStock_settle sym res st =
  setLoadingMap (fun m => <[sym := false]> m)
    (setDataMap (fun m => <[sym := d]> m) st).
Proof. intros E. unfold fetchStock_settle. now rewrite E. Qed.

Lemma fetchStock_settle_Throw (sym : string) (res : intradayResponse)
    (message : string) (st : State) :
  fetchStock_try sym res = Throw message ->
  fetchStock_settle sym res st =
  setLoadingMap (fun m => <[sym := false]> m)
    (setDataMap (fun m => delete sym m)
       (setErrorMap (fun m => <[sym := message]> m) st)).
Proof. intros E. unfold fetchStock_settle. now rewrite E. Qed.

End FetchFacts.

(** ** The model on small inputs *)

(** The binary64 value that prints as -1.9801980198019802. *)
Example changePct_value :
  ((99 - 101) / 101 * 100)%float = (-0x1.faee41e6a7498p+0)%float.
Proof. reflexivity. Qed.

Example js_get_negative : js_get [1; 2] (-1) = None.
Proof. reflexivity. Qed.

Example toPoints_sorts :
  toPoints (host := scenarioHost) (reverse scenarioSeries)
  = history scenarioSnapshot.
Proof. vm_compute. reflexivity. Qed.

Example mount_fetches :
  snd mount = [GetIntraday "AAPL"] /\
  loadingMap (fst mount) !! "AAPL" = Some true /\
  errorMap (fst mount) !! "AAPL" = Some "".
Proof. repeat split; vm_compute; reflexivity. Qed.

Example sorted_descending : sorted pricedState = ["MSFT"; "AAPL"; "IBM"].
Proof. vm_compute. reflexivity. Qed.

Example sorted_ascending :
  sorted (setSortAsc true pricedState) = ["IBM"; "AAPL"; "MSFT"].
Proof. vm_compute. reflexivity. Qed.

Example nan_close_is_stored :
  changePct <$> dataMap (fetchStock (host := scenarioHost) "AAPL"
                           (IntradayData (Some [("2024-01-02 09:30:00", "n/a");
                                                ("2024-01-02 09:35:00", "n/a")]))
                           initialState) !! "AAPL"
  = Some nan.
Proof. vm_compute. reflexivity. Qed.

Example trimmed_length : spec_trimmedLength "  ab c  " = 4.
Proof. reflexivity. Qed.

(** * The claims *)






(** ** The sorted rows *)

Lemma sorted_Permutation (st : State) :
  sorted st ≡ₚ filter (fun sym => is_Some (dataMap st !! sym)) (symbols st).
Proof.
  unfold sorted. rewrite js_sort_Permutation.
  rewrite (list_filter_iff _ (fun sym => is_Some (dataMap st !! sym))); [done|].
  intros sym. unfold hasData. apply bool_decide_eq_true.
Qed.

Lemma elem_of_sorted (st : State) (sym : string) :
  sym ∈ sorted st <-> sym ∈ symbols st /\ is_Some (dataMap st !! sym).
Proof. rewrite sorted_Permutation, list_elem_of_filter. tauto. Qed.





(** ** Failed fetches *)




(** C4, as stated, fails: for a series of one sample no snapshot is stored
    at all, [NaN] or other; reading [prev.close] throws, and the symbol
    gets the error of that exception. *)
Lemma short_series_no_snapshot :
  dataMap (fetchStock (host := scenarioHost) "AAPL"
             (IntradayData (Some [("2024-01-02 09:30:00", "100.00")]))
             initialState) !! "AAPL" = None /\
  errorMap (fetchStock (host := scenarioHost) "AAPL"
              (IntradayData (Some [("2024-01-02 09:30:00", "100.00")]))
              initialState) !! "AAPL" = Some typeErrorMessage.
Proof. split; vm_compute; reflexivity. Qed.

(** C4 (amended): for every fetch whose response has a time series of fewer
    than two samples, reading the close of the missing sample throws inside
    the [try] block: no snapshot is stored for the symbol (one stored
    before is removed), the symbol's error is the message of that
    exception, and its loading flag is cleared. *)
Theorem short_series_error (host : Host) (sym : string)
    (rawSeries : RawTimeSeries) (st : State) :
  length rawSeries < 2 ->
  fetchStock_try sym (IntradayData (Some rawSeries)) = Throw typeErrorMessage /\
  dataMap (fetchStock_settle sym (IntradayData (Some rawSeries)) st) !! sym
    = None /\
  errorMap (fetchStock_settle sym (IntradayData (Some rawSeries)) st) !! sym
    = Some typeErrorMessage /\
  loadingMap (fetchStock_settle sym (IntradayData (Some rawSeries)) st) !! sym
    = Some false.
Proof.
  intros Hlen. pose proof (fetchStock_try_short sym rawSeries Hlen) as Htry.
  split; [exact Htry|].
  rewrite (fetchStock_settle_Throw _ _ _ _ Htry). cbn.
  now rewrite lookup_delete_eq, !lookup_insert_eq.
Qed.

Lemma short_series_error_witness :
  fetchStock_try (host := scenarioHost) "AAPL" (IntradayData (Some []))
    = Throw typeErrorMessage /\
  dataMap (fetchStock_settle (host := scenarioHost) "AAPL"
             (IntradayData (Some [])) scenarioLoaded) !! "AAPL" = None /\
  errorMap (fetchStock_settle (host := scenarioHost) "AAPL"
              (IntradayData (Some [])) scenarioLoaded) !! "AAPL"
    = Some typeErrorMessage /\
  loadingMap (fetchStock_settle (host := scenarioHost) "AAPL"
                (IntradayData (Some [])) scenarioLoaded) !! "AAPL"
    = Some false.
Proof.
  apply (short_series_error scenarioHost "AAPL" [] scenarioLoaded).
  cbn. lia.
Defined.

(** C10: a fetch for a symbol, at its start and at its completion (success
    or failure), leaves the entries of the snapshot, loading and error maps
    at every other symbol as they were, and leaves the watchlist, the
    selection set and the sort direction (and the query and suggestions)
    unchanged. *)
Theorem fetch_frame (host : Host) (s s' : string) (res : intradayResponse)
    (st : State) :
  s' <> s ->
  (dataMap (fetchStock_begin s st) !! s' = dataMap st !! s' /\
   loadingMap (fetchStock_begin s st) !! s' = loadingMap st !! s' /\
   errorMap (fetchStock_begin s st) !! s' = errorMap st !! s' /\
   symbols (fetchStock_begin s st) = symbols st /\
   selected (fetchStock_begin s st) = selected st /\
   sortAsc (fetchStock_begin s st) = sortAsc st /\
   query (fetchStock_begin s st) = query st /\
   suggestions (fetchStock_begin s st) = suggestions st) /\
  (dataMap (fetchStock_settle s res st) !! s' = dataMap st !! s' /\
   loadingMap (fetchStock_settle s res st) !! s' = loadingMap st !! s' /\
   errorMap (fetchStock_settle s res st) !! s' = errorMap st !! s' /\
   symbols (fetchStock_settle s res st) = symbols st /\
   selected (fetchStock_settle s res st) = selected st /\
   sortAsc (fetchStock_settle s res st) = sortAsc st /\
   query (fetchStock_settle s res st) = query st /\
   suggestions (fetchStock_settle s res st) = suggestions st).
Proof.
  intros Hne. split.
  - cbn. now rewrite !lookup_insert_ne by congruence.
  - unfold fetchStock_settle. destruct (fetchStock_try s res); cbn;
      now rewrite ?lookup_delete_ne, ?lookup_insert_ne by congruence.
Qed.

Lemma fetch_frame_witness :
  let st := fetchStock_begin "MSFT" scenarioLoaded in
  let res := RequestFailed "Network Error" in
  (dataMap (fetchStock_begin "MSFT" st) !! "AAPL" = dataMap st !! "AAPL" /\
   loadingMap (fetchStock_begin "MSFT" st) !! "AAPL" = loadingMap st !! "AAPL" /\
   errorMap (fetchStock_begin "MSFT" st) !! "AAPL" = errorMap st !! "AAPL" /\
   symbols (fetchStock_begin "MSFT" st) = symbols st /\
   selected (fetchStock_begin "MSFT" st) = selected st /\
   sortAsc (fetchStock_begin "MSFT" st) = sortAsc st /\
   query (fetchStock_begin "MSFT" st) = query st /\
   suggestions (fetchStock_begin "MSFT" st) = suggestions st) /\
  (dataMap (fetchStock_settle (host := scenarioHost) "MSFT" res st) !! "AAPL"
     = dataMap st !! "AAPL" /\
   loadingMap (fetchStock_settle (host := scenarioHost) "MSFT" res st) !! "AAPL"
     = loadingMap st !! "AAPL" /\
   errorMap (fetchStock_settle (host := scenarioHost) "MSFT" res st) !! "AAPL"
     = errorMap st !! "AAPL" /\
   symbols (fetchStock_settle (host := scenarioHost) "MSFT" res st) = symbols st /\
   selected (fetchStock_settle (host := scenarioHost) "MSFT" res st) = selected st /\
   sortAsc (fetchStock_settle (host := scenarioHost) "MSFT" res st) = sortAsc st /\
   query (fetchStock_settle (host := scenarioHost) "MSFT" res st) = query st /\
   suggestions (fetchStock_settle (host := scenarioHost) "MSFT" res st)
     = suggestions st).
Proof.
  apply (fetch_frame scenarioHost "MSFT" "AAPL" (RequestFailed "Network Error")
           (fetchStock_begin "MSFT" scenarioLoaded)).
  discriminate.
Defined.

(** ** The fetch trigger *)

Lemma effectTargets_spec (st : State) (sym : string) :
  sym ∈ effectTargets st <->
  sym ∈ symbols st /\ dataMap st !! sym = None /\ isLoading st sym = false.
Proof.
  unfold effectTargets. rewrite list_elem_of_filter.
  unfold hasData. rewrite andb_true_iff, !negb_true_iff, bool_decide_eq_false.
  rewrite <- eq_None_not_Some. tauto.
Qed.

Lemma trigger_loading (l : list string) : forall (st : State) (sym : string),
  sym ∈ l ->
  isLoading (foldl (fun s x => fetchStock_begin x s) st l) sym = true.
Proof.
  induction l as [|x l IH] using rev_ind; intros st sym Hin.
  - now apply elem_of_nil in Hin.
  - rewrite foldl_app. cbn. unfold isLoading. cbn.
    destruct (decide (x = sym)) as [->|Hne].
    + now rewrite lookup_insert_eq.
    + rewrite lookup_insert_ne by exact Hne.
      apply elem_of_app in Hin as [Hin|Hin%list_elem_of_singleton]; [|congruence].
      now apply IH.
Qed.

Lemma trigger_frame (l : list string) (st : State) :
  symbols (foldl (fun s x => fetchStock_begin x s) st l) = symbols st /\
  dataMap (foldl (fun s x => fetchStock_begin x s) st l) = dataMap st.
Proof.
  revert st. induction l as [|x l IH]; intros st; [done|].
  cbn [foldl]. destruct (IH (fetchStock_begin x st)) as [-> ->]. done.
Qed.

Lemma trigger_not_loading (l : list string) : forall (st : State) (sym : string),
  sym ∉ l ->
  isLoading (foldl (fun s x => fetchStock_begin x s) st l) sym = isLoading st sym.
Proof.
  induction l as [|x l IH] using rev_ind; intros st sym Hnin; [done|].
  rewrite not_elem_of_app, list_elem_of_singleton in Hnin.
  destruct Hnin as [Hl Hx].
  rewrite foldl_app. cbn. unfold isLoading at 1. cbn.
  rewrite lookup_insert_ne by congruence. now apply IH.
Qed.

(** The trigger is stable: a run of the effect leaves nothing for the run
    that its own updates cause. *)
Lemma fetchTrigger_stable (st : State) :
  effectTargets (fst (fetchTrigger st)) = [].
Proof.
  apply elem_of_nil_inv. intros sym (Hin & Hd & Hl)%effectTargets_spec.
  unfold fetchTrigger in *. cbn [fst] in *.
  destruct (trigger_frame (effectTargets st) st) as [Es Ed].
  rewrite Es in Hin. rewrite Ed in Hd.
  destruct (decide (sym ∈ effectTargets st)) as [Ht|Ht].
  - rewrite trigger_loading in Hl by exact Ht. discriminate.
  - rewrite trigger_not_loading in Hl by exact Ht.
    now apply Ht, effectTargets_spec.
Qed.

Lemma dispatch_FetchSettled (host : Host) (sym : string)
    (res : intradayResponse) (st : State) :
  dispatch (FetchSettled sym res) st =
  (fst (fetchTrigger (fetchStock_settle sym res st)),
   GetIntraday <$> effectTargets (fetchStock_settle sym res st)).
Proof. reflexivity. Qed.




(** A fetch that succeeded is not started again. *)
Lemma fetched_not_refetched (host : Host) (sym : string)
    (res : intradayResponse) (d : StockData) (st : State) :
  fetchStock_try sym res = Return d ->
  GetIntraday sym ∉ snd (dispatch (FetchSettled sym res) st).
Proof.
  intros Htry. rewrite dispatch_FetchSettled. cbn [snd].
  intros (x & [= <-] & Hx%effectTargets_spec)%list_elem_of_fmap.
  destruct Hx as (_ & Hd & _).
  rewrite (fetchStock_settle_Return _ _ _ _ Htry) in Hd. cbn in Hd.
  now rewrite lookup_insert_eq in Hd.
Qed.

(** ** Search and the watchlist *)




(** C7: adding a symbol that is in the watchlist leaves the watchlist, and
    so its length, unchanged; adding one that is not appends it at the
    end; adding the same symbol twice is the same as adding it once. *)
Theorem add_idempotent (sym : string) (st : State) :
  (sym ∈ symbols st -> symbols (handleAdd sym st) = symbols st) /\
  (sym ∉ symbols st -> symbols (handleAdd sym st) = symbols st ++ [sym]) /\
  symbols (handleAdd sym (handleAdd sym st)) = symbols (handleAdd sym st) /\
  length (symbols (handleAdd sym (handleAdd sym st)))
    = length (symbols (handleAdd sym st)).
Proof.
  assert (Hin : sym ∈ symbols st -> symbols (handleAdd sym st) = symbols st).
  { intros H. unfold handleAdd. now rewrite bool_decide_eq_true_2 by exact H. }
  assert (Hnin : sym ∉ symbols st ->
                 symbols (handleAdd sym st) = symbols st ++ [sym]).
  { intros H. unfold handleAdd. now rewrite bool_decide_eq_false_2 by exact H. }
  assert (Hadded : sym ∈ symbols (handleAdd sym st)).
  { destruct (decide (sym ∈ symbols st)) as [H|H].
    - now rewrite Hin.
    - rewrite Hnin by exact H. apply elem_of_app. right. now apply elem_of_cons; left. }
  assert (Hidem : symbols (handleAdd sym (handleAdd sym st))
                  = symbols (handleAdd sym st)).
  { unfold handleAdd at 1. now rewrite bool_decide_eq_true_2 by exact Hadded. }
  repeat split; try assumption. now rewrite Hidem.
Qed.

Lemma add_idempotent_witness :
  (symbols (handleAdd "AAPL" initialState) = symbols initialState) /\
  (symbols (handleAdd "MSFT" initialState) = symbols initialState ++ ["MSFT"]) /\
  symbols (handleAdd "MSFT" (handleAdd "MSFT" initialState))
    = ["AAPL"; "MSFT"].
Proof.
  split; [|split].
  - apply (proj1 (add_idempotent "AAPL" initialState)).
    cbn. apply elem_of_cons. now left.
  - apply (proj1 (proj2 (add_idempotent "MSFT" initialState))).
    cbn. intros [E|H]%elem_of_cons; [discriminate|now apply elem_of_nil in H].
  - rewrite (proj1 (proj2 (proj2 (add_idempotent "MSFT" initialState)))).
    vm_compute. reflexivity.
Defined.

(** C9: when a search response arrives, the suggestion list becomes the
    first five matches at most, in the order received (none when the
    response has no match list); two matches give exactly those two, in
    order.  When the search fails the list becomes empty.  In every case
    the error map, like everything but the suggestion list, stays as it
    was: nothing is shown to the user. *)
Theorem suggestions_settled (res : searchResponse) (st : State) :
  (forall matches, res = SearchData (Some matches) ->
     (fun m => (matchSymbol m, name m))
       <$> suggestions (fetchSuggestions_settle res st) = take 5 matches) /\
  (forall s1 n1 s2 n2, res = SearchData (Some [(s1, n1); (s2, n2)]) ->
     suggestions (fetchSuggestions_settle res st)
       = [mkSearchMatch s1 n1; mkSearchMatch s2 n2]) /\
  (res = SearchData None \/ res = SearchFailed ->
     suggestions (fetchSuggestions_settle res st) = []) /\
  length (suggestions (fetchSuggestions_settle res st)) <= 5 /\
  errorMap (fetchSuggestions_settle res st) = errorMap st /\
  symbols (fetchSuggestions_settle res st) = symbols st /\
  dataMap (fetchSuggestions_settle res st) = dataMap st /\
  loadingMap (fetchSuggestions_settle res st) = loadingMap st /\
  selected (fetchSuggestions_settle res st) = selected st /\
  sortAsc (fetchSuggestions_settle res st) = sortAsc st /\
  query (fetchSuggestions_settle res st) = query st.
Proof.
  split; [|split; [|split; [|split]]].
  - intros matches ->. cbn. rewrite fmap_take, <- list_fmap_compose.
    f_equal. rewrite <- (list_fmap_id matches) at 2.
    apply list_fmap_ext. now intros _ [s n] _.
  - now intros s1 n1 s2 n2 ->.
  - now intros [->| ->].
  - destruct res as [|[matches|]]; cbn; try lia.
    rewrite length_take. lia.
  - now destruct res.
Qed.

Lemma suggestions_settled_witness :
  suggestions
    (fetchSuggestions_settle
       (SearchData (Some [("AAPL", "Apple Inc"); ("APLE", "Apple Hospitality")]))
       (fst (handleQueryChange "app" initialState)))
  = [mkSearchMatch "AAPL" "Apple Inc"; mkSearchMatch "APLE" "Apple Hospitality"].
Proof.
  apply (proj1 (proj2 (suggestions_settled
           (SearchData (Some [("AAPL", "Apple Inc"); ("APLE", "Apple Hospitality")]))
           (fst (handleQueryChange "app" initialState))))).
  reflexivity.
Defined.

(** * Further properties *)

(** ** The sort on input that is already in order, or in reverse order *)

Section SortOrdered.
  Context {A : Type} (compareFn : A -> A -> float).

Lemma sort_insert_front (x : A) (l : list A) :
  HdRel (fun a b => sgn (compareFn a b) <> Gt) x l ->
  sort_insert compareFn x l = x :: l.
Proof.
  destruct 1 as [|y l H]; cbn [sort_insert]; [reflexivity|].
  now destruct (sgn (compareFn x y)).
Qed.

Lemma js_sort_ascending (l : list A) :
  Sorted (fun a b => sgn (compareFn a b) <> Gt) l -> js_sort compareFn l = l.
Proof.
  induction 1 as [|x l HS IH Hd]; [reflexivity|].
  change (js_sort compareFn (x :: l))
    with (sort_insert compareFn x (js_sort compareFn l)).
  rewrite IH. now apply sort_insert_front.
Qed.

Lemma sort_insert_back (x : A) (l : list A) :
  Forall (fun y => sgn (compareFn x y) = Gt) l ->
  sort_insert compareFn x l = l ++ [x].
Proof.
  induction 1 as [|y l Hy Hl IH]; cbn [sort_insert]; [reflexivity|].
  now rewrite Hy, IH.
Qed.

Lemma js_sort_descending (l : list A) :
  StronglySorted (fun a b => sgn (compareFn a b) = Gt) l ->
  js_sort compareFn l = reverse l.
Proof.
  induction 1 as [|x l HS IH Hx]; [reflexivity|].
  change (js_sort compareFn (x :: l))
    with (sort_insert compareFn x (js_sort compareFn l)).
  rewrite IH, reverse_cons. apply sort_insert_back.
  now rewrite Forall_reverse.
Qed.

End SortOrdered.

Lemma ltb_not_nan (x y : float) :
  (x <? y)%float = true -> is_nan x = false /\ is_nan y = false.
Proof.
  rewrite ltb_spec, <- !Prim2SF_nan. unfold SFltb.
  now destruct (Prim2SF x), (Prim2SF y).
Qed.

Lemma leb_not_nan (x y : float) :
  (x <=? y)%float = true -> is_nan x = false /\ is_nan y = false.
Proof.
  rewrite leb_spec, <- !Prim2SF_nan. unfold SFleb.
  now destruct (Prim2SF x), (Prim2SF y).
Qed.

Lemma sgn_sub_gt (x y : float) : (y <? x)%float = true -> sgn (x - y) = Gt.
Proof.
  intros H. destruct (ltb_not_nan _ _ H) as [Hy Hx].
  rewrite ltb_rank in H by assumption. rewrite sgn_sub by assumption.
  apply Z.compare_gt_iff. apply Z.ltb_lt in H. lia.
Qed.

Lemma sgn_sub_le (x y : float) : (x <=? y)%float = true -> sgn (x - y) <> Gt.
Proof.
  intros H. destruct (leb_not_nan _ _ H) as [Hx Hy].
  rewrite leb_rank in H by assumption. rewrite sgn_sub by assumption.
  apply Z.leb_le in H. intros E%Z.compare_gt_iff. lia.
Qed.

(** ** The history of a fetched series *)

(** X1: the history stored by a successful fetch holds exactly the samples
    of the response, each with its close read by [parseFloat]: the sort
    drops none and repeats none. *)
Theorem history_Permutation (host : Host) (sym : string)
    (rawSeries : RawTimeSeries) (d : StockData) :
  fetchStock_try sym (IntradayData (Some rawSeries)) = Return d ->
  history d ≡ₚ (fun '(t, c) => mkTimePoint t (parseFloat c)) <$> rawSeries /\
  length (history d) = length rawSeries /\
  symbol d = sym.
Proof.
  intros (raw' & front & prev & last & [= <-] & _ & ->)%fetchStock_try_Return.
  cbn [history symbol]. split; [apply js_sort_Permutation|].
  split; [apply toPoints_length|reflexivity].
Qed.

Lemma history_Permutation_witness :
  history scenarioSnapshot
    ≡ₚ (fun '(t, c) => mkTimePoint t (parseFloat (Host := scenarioHost) c))
         <$> reverse scenarioSeries /\
  length (history scenarioSnapshot) = length (reverse scenarioSeries) /\
  symbol scenarioSnapshot = "AAPL".
Proof.
  apply (history_Permutation scenarioHost "AAPL" (reverse scenarioSeries)
           scenarioSnapshot).
  vm_compute. reflexivity.
Defined.

(** X2: a response that lists its samples in ascending time order (equal
    times allowed) is stored in the order received. *)
Theorem toPoints_ascending (host : Host) (rawSeries : RawTimeSeries) :
  Sorted (fun a b => (dateTime a.1 <=? dateTime b.1)%float = true) rawSeries ->
  toPoints rawSeries
  = (fun '(t, c) => mkTimePoint t (parseFloat c)) <$> rawSeries.
Proof.
  intros HS. unfold toPoints. apply js_sort_ascending.
  eapply Sorted_fmap; [|exact HS].
  intros [t1 c1] [t2 c2]. cbn. apply sgn_sub_le.
Qed.

Lemma toPoints_ascending_witness :
  toPoints (host := scenarioHost) scenarioSeries
  = (fun '(t, c) => mkTimePoint t (parseFloat (Host := scenarioHost) c))
      <$> scenarioSeries.
Proof.
  apply (toPoints_ascending scenarioHost scenarioSeries).
  repeat (constructor; try reflexivity).
Defined.

(** X3: for a response that lists at least two samples newest first, with
    strictly decreasing valid time stamps (the order of the upstream API),
    the stored history is the response reversed, [latestClose] is the
    close of the first entry, and [changePct] is computed from the first
    entry against the second. *)
Theorem fetch_newest_first (host : Host) (sym : string)
    (t1 c1 t2 c2 : string) (rest : RawTimeSeries) :
  StronglySorted (fun a b => (dateTime b.1 <? dateTime a.1)%float = true)
    ((t1, c1) :: (t2, c2) :: rest) ->
  fetchStock_try sym (IntradayData (Some ((t1, c1) :: (t2, c2) :: rest)))
  = Return
      (mkStockData sym (parseFloat c1)
         ((parseFloat c1 - parseFloat c2) / parseFloat c2 * 100)%float
         (reverse ((fun '(t, c) => mkTimePoint t (parseFloat c))
                     <$> (t1, c1) :: (t2, c2) :: rest))).
Proof.
  intros HS.
  assert (E : toPoints ((t1, c1) :: (t2, c2) :: rest)
              = reverse ((fun '(t, c) => mkTimePoint t (parseFloat c))
                           <$> (t1, c1) :: (t2, c2) :: rest)).
  { unfold toPoints. apply js_sort_descending.
    eapply StronglySorted_fmap; [|exact HS].
    intros [ta ca] [tb cb]. cbn. apply sgn_sub_gt. }
  rewrite (fetchStock_try_series sym _
             (reverse ((fun '(t, c) => mkTimePoint t (parseFloat c)) <$> rest))
             (mkTimePoint t2 (parseFloat c2)) (mkTimePoint t1 (parseFloat c1))).
  - cbn [close]. now rewrite E.
  - rewrite E. cbn [fmap list_fmap]. rewrite !reverse_cons, <- app_assoc.
    reflexivity.
Qed.

Lemma fetch_newest_first_witness :
  fetchStock_try (host := scenarioHost) "AAPL"
    (IntradayData (Some [("2024-01-02 09:40:00", "99.00");
                         ("2024-01-02 09:35:00", "101.00");
                         ("2024-01-02 09:30:00", "100.00")]))
  = Return
      (mkStockData "AAPL" (parseFloat (Host := scenarioHost) "99.00")
         ((parseFloat (Host := scenarioHost) "99.00"
           - parseFloat (Host := scenarioHost) "101.00")
          / parseFloat (Host := scenarioHost) "101.00" * 100)%float
         (reverse ((fun '(t, c) => mkTimePoint t (parseFloat (Host := scenarioHost) c))
                     <$> [("2024-01-02 09:40:00", "99.00");
                          ("2024-01-02 09:35:00", "101.00");
                          ("2024-01-02 09:30:00", "100.00")]))).
Proof.
  apply (fetch_newest_first scenarioHost "AAPL"
           "2024-01-02 09:40:00" "99.00" "2024-01-02 09:35:00" "101.00"
           [("2024-01-02 09:30:00", "100.00")]).
  repeat (constructor; try reflexivity).
Defined.

(** ** The percentage on degenerate closes *)

Section ChangeFacts.
  Local Open Scope Z_scope.

Lemma Prim2SF_zero (x : float) :
  is_zero x = true <-> exists s, Prim2SF x = S754_zero s.
Proof.
  assert (E : is_zero x = SFeqb (Prim2SF x) (S754_zero false))
    by (unfold is_zero; now rewrite FloatAxioms.eqb_spec).
  rewrite E. unfold SFeqb. split.
  - destruct (Prim2SF x) as [s|s| |s m e]; try destruct s; try discriminate.
    + now exists true.
    + now exists false.
  - now intros [s ->].
Qed.

Lemma Prim2SF_infinity (x : float) :
  is_infinity x = true <-> exists s, Prim2SF x = S754_infinity s.
Proof.
  assert (E : is_infinity x = SFeqb (SFabs (Prim2SF x)) (S754_infinity false))
    by (unfold is_infinity; now rewrite FloatAxioms.eqb_spec, abs_spec).
  rewrite E. unfold SFeqb. split.
  - destruct (Prim2SF x) as [s|s| |s m e]; try discriminate.
    now exists s.
  - now intros [s ->].
Qed.

Lemma shr_fexp_nonneg (m e : Z) (l : location) :
  0 <= m -> 0 <= shr_m (fst (shr_fexp prec emax m e l)).
Proof.
  intros Hm. unfold shr_fexp, shr.
  destruct (fexp prec emax (Zdigits2 m + e) - e) as [|p|p]; cbn [fst];
    rewrite ?iter_shr_m, ?shr_record_of_loc_m;
    rewrite ?shr_record_of_loc_m; try lia.
  apply Z.div_pos; [lia|]. apply Z.pow_pos_nonneg; lia.
Qed.

Lemma binary_round_aux_not_nan (sx : bool) (m e : Z) (l : location) :
  0 <= m -> SFis_nan (binary_round_aux prec emax sx m e l) = false.
Proof.
  intros Hm. unfold binary_round_aux.
  pose proof (shr_fexp_nonneg m e l Hm) as H1.
  destruct (shr_fexp prec emax m e l) as [mrs' e']. cbn [fst] in H1.
  assert (H2 : 0 <= round_nearest_even (shr_m mrs') (loc_of_shr_record mrs')).
  { destruct (loc_of_shr_record mrs') as [|[]]; cbn [round_nearest_even];
      try lia. destruct (Z.even _); lia. }
  pose proof (shr_fexp_nonneg _ e' loc_Exact H2) as H3.
  destruct (shr_fexp prec emax _ e' loc_Exact) as [mrs'' e'']. cbn [fst] in H3.
  destruct (shr_m mrs'') as [|p|p]; try lia; [reflexivity|].
  now destruct (e'' <=? emax - prec).
Qed.

Lemma SFsub_not_nan (x y : spec_float) :
  valid_binary x = true -> valid_binary y = true ->
  SFis_nan x = false -> SFis_nan y = false ->
  (forall s, x <> S754_infinity s) ->
  SFis_nan (SF64sub x y) = false.
Proof.
  intros Vx Vy Nx Ny Ix.
  pose proof (SFsub_sign x y Vx Vy) as Hs. rewrite Nx, Ny in Hs. cbn in Hs.
  destruct x as [sx|sx| |sx mx ex], y as [sy|sy| |sy my ey]; try discriminate;
    try (now destruct (Ix sx)); try reflexivity.
  - now destruct sx, sy.
  - unfold SF64sub in *. cbn [SFsub] in *.
    unfold binary_normalize in *.
    destruct (_ - _) as [|p|p]; [reflexivity| |];
      unfold binary_round; destruct (shl_align _ _ _);
      now apply binary_round_aux_not_nan.
Qed.

Lemma SFdiv_not_nan (x y : spec_float) (s : bool) (m : positive) (e : Z) :
  SFis_nan x = false -> y = S754_finite s m e ->
  SFis_nan (SF64div x y) = false.
Proof.
  intros Nx ->. destruct x as [sx|sx| |sx mx ex]; try discriminate;
    try reflexivity.
  unfold SF64div. cbn [SFdiv]. unfold SFdiv_core_binary.
  set (m' := match _ with Z0 => _ | Zpos _ => _ | Zneg _ => _ end).
  assert (Hm' : 0 <= m').
  { subst m'. destruct (_ - _ - _) as [|p|p]; try lia.
    rewrite Z.shiftl_mul_pow2 by lia.
    apply Z.mul_nonneg_nonneg; [lia|]. apply Z.pow_nonneg. lia. }
  pose proof (Z.div_eucl_eq m' (Zpos m) ltac:(lia)) as Hq.
  pose proof (Z.mod_pos_bound m' (Zpos m) ltac:(lia)) as Hr.
  unfold Z.modulo in Hr.
  destruct (Z.div_eucl m' (Zpos m)) as [q r].
  apply binary_round_aux_not_nan. nia.
Qed.

Lemma SFmul_not_nan (x y : spec_float) (s : bool) (m : positive) (e : Z) :
  SFis_nan x = false -> y = S754_finite s m e ->
  SFis_nan (SF64mul x y) = false.
Proof.
  intros Nx ->. destruct x as [sx|sx| |sx mx ex]; try discriminate;
    try reflexivity.
  unfold SF64mul. cbn [SFmul]. now apply binary_round_aux_not_nan.
Qed.

End ChangeFacts.



Lemma changePct_number (l p : float) :
  is_finite l = true -> is_finite p = true -> is_zero p = false ->
  is_nan ((l - p) / p * 100)%float = false.
Proof.
  unfold is_finite. rewrite !negb_true_iff, !orb_false_iff.
  intros [Nl Il] [Np Ip] Zp.
  assert (Hp : exists s m e, Prim2SF p = S754_finite s m e).
  { rewrite <- Prim2SF_nan in Np.
    destruct (Prim2SF p) as [s|s| |s m e] eqn:E; try discriminate.
    - assert (is_zero p = true) by (apply Prim2SF_zero; eauto). congruence.
    - assert (is_infinity p = true) by (apply Prim2SF_infinity; eauto).
      congruence.
    - eauto. }
  destruct Hp as (sp & mp & ep & Hp).
  destruct (Prim2SF 100) as [s|s| |s m e] eqn:E100;
    try (vm_compute in E100; discriminate).
  rewrite <- Prim2SF_nan, mul_spec, div_spec, sub_spec, E100.
  eapply SFmul_not_nan; [|reflexivity].
  eapply SFdiv_not_nan; [|exact Hp].
  apply SFsub_not_nan; try apply Prim2SF_valid.
  - now rewrite Prim2SF_nan.
  - now rewrite Hp.
  - intros s0 E. assert (is_infinity l = true) by (apply Prim2SF_infinity; eauto).
    congruence.
Qed.

Lemma fetchStock_try_last_two (host : Host) (sym : string)
    (res : intradayResponse) (d : StockData)
    (front : list TimePoint) (prev last : TimePoint) :
  fetchStock_try sym res = Return d ->
  history d = front ++ [prev; last] ->
  latestClose d = close last /\
  changePct d = ((close last - close prev) / close prev * 100)%float.
Proof.
  intros (raw & front' & prev' & last' & -> & E & ->)%fetchStock_try_Return.
  cbn [history latestClose changePct]. rewrite E. intros Happ.
  change (front' ++ [prev'; last']) with (front' ++ [prev'] ++ [last']) in Happ.
  change (front ++ [prev; last]) with (front ++ [prev] ++ [last]) in Happ.
  rewrite !app_assoc in Happ.
  apply app_inj_tail in Happ as [Happ ->].
  apply app_inj_tail in Happ as [_ ->]. done.
Qed.





(** X6: when the last two closes are finite numbers and the one before the
    last is not zero, the stored percentage is a number (not [NaN]). *)
Theorem changePct_is_number (host : Host) (sym : string)
    (res : intradayResponse) (d : StockData)
    (front : list TimePoint) (prev last : TimePoint) :
  fetchStock_try sym res = Return d ->
  history d = front ++ [prev; last] ->
  is_finite (close last) = true ->
  is_finite (close prev) = true ->
  is_zero (close prev) = false ->
  is_nan (changePct d) = false.
Proof.
  intros Htry Hh Hl Hp Hz.
  destruct (fetchStock_try_last_two _ _ _ _ _ _ _ Htry Hh) as [_ ->].
  now apply changePct_number.
Qed.

Lemma changePct_is_number_witness :
  is_nan (changePct scenarioSnapshot) = false.
Proof.
  apply (changePct_is_number scenarioHost "AAPL"
           (IntradayData (Some scenarioSeries)) scenarioSnapshot
           [mkTimePoint "2024-01-02 09:30:00" 100]
           (mkTimePoint "2024-01-02 09:35:00" 101)
           (mkTimePoint "2024-01-02 09:40:00" 99)).
  - vm_compute. reflexivity.
  - reflexivity.
  - reflexivity.
  - reflexivity.
  - reflexivity.
Defined.

(** ** Sessions: what holds in every state the component reaches *)

Lemma trigger_errorMap (l : list string) : forall (st : State) (sym : string),
  errorMap (foldl (fun s x => fetchStock_begin x s) st l) !! sym =
  if decide (sym ∈ l) then Some "" else errorMap st !! sym.
Proof.
  induction l as [|x l IH] using rev_ind; intros st sym.
  - cbn. rewrite decide_False; [done|apply not_elem_of_nil].
  - rewrite foldl_app. cbn. destruct (decide (x = sym)) as [->|Hne].
    + rewrite lookup_insert_eq, decide_True; [done|].
      apply elem_of_app. right. now apply list_elem_of_singleton.
    + rewrite lookup_insert_ne by exact Hne. rewrite IH.
      destruct (decide (sym ∈ l)) as [Hin|Hin].
      * rewrite decide_True; [done|]. apply elem_of_app. now left.
      * rewrite decide_False; [done|].
        rewrite not_elem_of_app, list_elem_of_singleton. split; congruence.
Qed.

Lemma trigger_selected (l : list string) (st : State) :
  selected (foldl (fun s x => fetchStock_begin x s) st l) = selected st.
Proof.
  revert st. induction l as [|x l IH]; intros st; [done|].
  cbn [foldl]. now rewrite IH.
Qed.

Lemma elem_of_removeOne (x y : string) (l : list string) :
  NoDup l -> y ∈ removeOne x l <-> y ∈ l /\ y <> x.
Proof.
  induction 1 as [|a l Ha Hnd IH]; cbn [removeOne].
  - split; [intros H%elem_of_nil|intros [H%elem_of_nil _]]; done.
  - destruct (decide (x = a)) as [->|Hne].
    + rewrite elem_of_cons. split.
      * intros Hy. split; [now right|]. intros ->. contradiction.
      * intros [[->|Hy] Hnea]; done.
    + rewrite !elem_of_cons, IH. split.
      * intros [->|[Hy Hyx]]; split; auto.
      * intros [[->|Hy] Hyx]; auto.
Qed.

Lemma NoDup_removeOne (x : string) (l : list string) :
  NoDup l -> NoDup (removeOne x l).
Proof.
  induction 1 as [|a l Ha Hnd IH]; cbn [removeOne]; [constructor|].
  destruct (decide (x = a)); [exact Hnd|].
  constructor; [|exact IH]. rewrite elem_of_removeOne by exact Hnd. tauto.
Qed.

Lemma intradaySymbols_fmap (l : list string) :
  intradaySymbols (GetIntraday <$> l) = l.
Proof. induction l as [|x l IH]; [done|]. cbn. f_equal. exact IH. Qed.

Lemma effectTargets_frame (st st' : State) :
  symbols st' = symbols st -> dataMap st' = dataMap st ->
  loadingMap st' = loadingMap st ->
  effectTargets st' = effectTargets st.
Proof.
  intros Hs Hd Hl. unfold effectTargets, hasData, isLoading.
  now rewrite Hs, Hd, Hl.
Qed.

Lemma handledInv_frame (st st' : State) (p : list string) :
  symbols st' = symbols st -> dataMap st' = dataMap st ->
  loadingMap st' = loadingMap st -> errorMap st' = errorMap st ->
  selected st' = selected st ->
  handledInv st p -> handledInv st' p.
Proof.
  intros Hs Hd Hl He Hsel. unfold handledInv.
  rewrite (effectTargets_frame st st') by assumption.
  unfold isLoading. now rewrite Hs, Hd, Hl, He, Hsel.
Qed.

Lemma handledInv_settled (st : State) (p : list string) :
  handledInv st p -> effectTargets st = [] -> settledInv st p.
Proof.
  intros Hinv Hnone. split; [exact Hinv|]. split; [exact Hnone|].
  intros sym e He.
  destruct Hinv as (_ & _ & _ & _ & _ & Herr & _).
  destruct (Herr sym e He) as [->|Hin]; [done|].
  rewrite Hnone in Hin. now apply elem_of_nil in Hin.
Qed.

(** The effect run after a handler re-establishes the invariant, with a
    request in flight for each of its targets. *)
Lemma trigger_inv (st : State) (p : list string) :
  handledInv st p ->
  settledInv (fst (fetchTrigger st)) (p ++ effectTargets st).
Proof.
  intros (Hnd & Hndp & Hload & Hl & Hd & Herr & Hsel).
  apply handledInv_settled; [|apply fetchTrigger_stable].
  unfold fetchTrigger. cbn [fst].
  destruct (trigger_frame (effectTargets st) st) as [Es Ed].
  assert (Hloading : forall sym,
    isLoading (foldl (fun s x => fetchStock_begin x s) st (effectTargets st)) sym
      = true <-> sym ∈ p \/ sym ∈ effectTargets st).
  { intros sym. destruct (decide (sym ∈ effectTargets st)) as [Ht|Ht].
    - rewrite trigger_loading by exact Ht. tauto.
    - rewrite trigger_not_loading by exact Ht. rewrite Hload. tauto. }
  unfold handledInv. rewrite Es, Ed, trigger_selected.
  split; [exact Hnd|]. split.
  { apply NoDup_app. split; [exact Hndp|]. split.
    - intros sym Hp (_ & _ & Hf)%effectTargets_spec.
      apply Hload in Hp. congruence.
    - unfold effectTargets. now apply NoDup_filter. }
  split.
  { intros sym. rewrite elem_of_app. symmetry. apply Hloading. }
  split.
  { intros sym [Hp|Ht]%Hloading.
    - now apply Hl, Hload.
    - apply effectTargets_spec in Ht. tauto. }
  split; [exact Hd|]. split; [|exact Hsel].
  intros sym e. rewrite trigger_errorMap.
  destruct (decide (sym ∈ effectTargets st)) as [Ht|Ht].
  - intros [= <-]. now left.
  - intros [->|Hin]%Herr; [now left|contradiction].
Qed.

(** What an event's handler keeps of the invariant; a response takes its
    request out of flight. *)
Lemma handled_inv (host : Host) (ev : event) (st : State) (p : list string) :
  settledInv st p -> enabled ev st p ->
  handledInv (fst (handleEvent ev st))
    (match ev with FetchSettled sym _ => removeOne sym p | _ => p end).
Proof.
  intros (Hinv & Hnone & Herr) Hen.
  destruct ev as [v|res|sym|sym| |sym res]; cbn [handleEvent fst].
  - unfold handleQueryChange. destruct (2 <=? String.length v)%nat;
      now apply (handledInv_frame st).
  - destruct res as [|bestMatches]; now apply (handledInv_frame st).
  - unfold handleAdd. case_bool_decide as Hin;
      [now apply (handledInv_frame st)|].
    destruct Hinv as (Hnd & Hndp & Hload & Hl & Hd & _ & Hsel).
    unfold handledInv, isLoading in *. cbn.
    split.
    { apply NoDup_app. split; [exact Hnd|]. split; [|apply NoDup_singleton].
      intros x Hx ->%list_elem_of_singleton. contradiction. }
    split; [exact Hndp|]. split; [exact Hload|]. split.
    { intros x Hx. destruct (Hl x Hx) as [H1 H2]. split; [|exact H2].
      apply elem_of_app. now left. }
    split.
    { intros x Hx. apply elem_of_app. left. now apply Hd. }
    split; [|exact Hsel].
    intros x e He. left. now apply (Herr x).
  - destruct Hinv as (Hnd & Hndp & Hload & Hl & Hd & He & Hsel).
    apply elem_of_sorted in Hen as [_ Hdata].
    unfold handledInv, toggleSelect. cbn -[effectTargets].
    change (effectTargets _) with (effectTargets st).
    split; [exact Hnd|]. split; [exact Hndp|]. split; [exact Hload|].
    split; [exact Hl|]. split; [exact Hd|]. split; [exact He|].
    intros x. case_bool_decide.
    + intros [Hx _]%elem_of_difference. now apply Hsel.
    + intros [Hx| ->%elem_of_singleton]%elem_of_union; [now apply Hsel|done].
  - now apply (handledInv_frame st).
  - cbn in Hen.
    destruct Hinv as (Hnd & Hndp & Hload & Hl & Hd & _ & Hsel).
    assert (Hsl : isLoading st sym = true) by now apply Hload.
    destruct (Hl sym Hsl) as [Hsin Hsd].
    assert (Hloading : forall st0 x,
      isLoading (setLoadingMap (fun m => <[sym := false]> m) st0) x = true <->
      x <> sym /\ isLoading st0 x = true).
    { intros st0 x. unfold isLoading. cbn.
      destruct (decide (sym = x)) as [->|Hne].
      - rewrite lookup_insert_eq. cbn. split; [done|]. now intros [? _].
      - rewrite lookup_insert_ne by exact Hne. split; [|tauto].
        intros ?. split; congruence. }
    destruct (fetchStock_try sym res) as [d|message] eqn:Htry.
    + rewrite (fetchStock_settle_Return _ _ _ _ Htry).
      unfold handledInv. setoid_rewrite Hloading.
      setoid_rewrite (elem_of_removeOne _ _ _ Hndp). cbn.
      split; [exact Hnd|]. split; [now apply NoDup_removeOne|].
      split.
      { intros x. rewrite Hload. tauto. }
      split.
      { intros x [Hne Hx]. destruct (Hl x Hx) as [H1 H2]. split; [exact H1|].
        now rewrite lookup_insert_ne by congruence. }
      split.
      { intros x. destruct (decide (sym = x)) as [<-|Hne]; [done|].
        rewrite lookup_insert_ne by exact Hne. apply Hd. }
      split.
      { intros x e He. left. now apply (Herr x). }
      intros x Hx. destruct (decide (sym = x)) as [<-|Hne].
      * rewrite lookup_insert_eq. eauto.
      * rewrite lookup_insert_ne by exact Hne. now apply Hsel.
    + rewrite (fetchStock_settle_Throw _ _ _ _ Htry).
      unfold handledInv. setoid_rewrite Hloading.
      setoid_rewrite (elem_of_removeOne _ _ _ Hndp).
      setoid_rewrite effectTargets_spec. unfold isLoading at 3. cbn.
      split; [exact Hnd|]. split; [now apply NoDup_removeOne|].
      split.
      { intros x. rewrite Hload. tauto. }
      split.
      { intros x [Hne Hx]. destruct (Hl x Hx) as [H1 H2]. split; [exact H1|].
        now rewrite lookup_delete_ne by congruence. }
      split.
      { intros x. destruct (decide (sym = x)) as [<-|Hne].
        - rewrite lookup_delete_eq. now intros [? [=]].
        - rewrite lookup_delete_ne by exact Hne. apply Hd. }
      split.
      { intros x e. destruct (decide (sym = x)) as [<-|Hne].
        - intros _. right. rewrite lookup_delete_eq, lookup_insert_eq.
          split; [exact Hsin|]. done.
        - rewrite lookup_insert_ne by exact Hne. intros He. left.
          now apply (Herr x). }
      intros x Hx. destruct (decide (sym = x)) as [<-|Hne].
      * apply Hsel in Hx. rewrite Hsd in Hx. now destruct Hx.
      * rewrite lookup_delete_ne by exact Hne. now apply Hsel.
Qed.

(** In a reached state the effect has nothing left to do, so every event
    is followed by the state and the requests of an effect run. *)
Lemma dispatch_trigger (host : Host) (ev : event) (st : State) (p : list string) :
  settledInv st p ->
  fst (dispatch ev st) = fst (fetchTrigger (fst (handleEvent ev st))) /\
  intradaySymbols (snd (dispatch ev st))
    = effectTargets (fst (handleEvent ev st)).
Proof.
  intros (_ & Hnone & _).
  assert (Hsame : forall st1 reqs,
    effectTargets st1 = [] -> intradaySymbols reqs = [] ->
    fst (st1, reqs) = fst (fetchTrigger st1) /\
    intradaySymbols (snd (st1, reqs)) = effectTargets st1).
  { intros st1 reqs E1 E2. unfold fetchTrigger. rewrite E1. cbn [fst snd foldl].
    now rewrite E2. }
  assert (Hrun : forall st1,
    fst (fst (fetchTrigger st1), [] ++ snd (fetchTrigger st1))
      = fst (fetchTrigger st1) /\
    intradaySymbols (snd (fst (fetchTrigger st1), [] ++ snd (fetchTrigger st1)))
      = effectTargets st1).
  { intros st1. cbn. split; [done|apply intradaySymbols_fmap]. }
  destruct ev as [v|res|sym|sym| |sym res]; unfold dispatch;
    cbn [handleEvent depsChanged fst snd].
  - unfold handleQueryChange. destruct (2 <=? String.length v)%nat;
      now apply Hsame.
  - apply Hsame; [|done]. now destruct res.
  - case_bool_decide as Hin; cbn [negb].
    + apply Hsame; [|done]. rewrite <- Hnone. apply effectTargets_frame;
        unfold handleAdd; now rewrite bool_decide_eq_true_2 by exact Hin.
    + apply Hrun.
  - now apply Hsame.
  - now apply Hsame.
  - apply Hrun.
Qed.

Lemma reachable_inv (host : Host) (st : State) (p : list string) :
  reachable st p -> settledInv st p.
Proof.
  induction 1 as [|ev st p Hr IH Hen].
  - unfold mount. cbn [snd fetchTrigger]. rewrite intradaySymbols_fmap.
    apply (trigger_inv initialState []).
    unfold handledInv, isLoading. cbn.
    split; [apply NoDup_singleton|]. split; [constructor|].
    split.
    { intros sym. rewrite lookup_empty. cbn. split; [|done].
      now intros ?%elem_of_nil. }
    split; [intros sym; now rewrite lookup_empty|].
    split; [intros sym; rewrite lookup_empty; now intros [? [=]]|].
    split; [intros sym e; now rewrite lookup_empty|].
    intros sym ?%elem_of_empty. done.
  - destruct (dispatch_trigger host ev st p IH) as [-> Hreq].
    unfold inFlightAfter. rewrite Hreq.
    apply trigger_inv. now apply handled_inv.
Qed.

Lemma reachable_step_eq (host : Host) (ev : event) (st : State)
    (p : list string) (st' : State) (p' : list string) :
  fst (dispatch ev st) = st' ->
  inFlightAfter ev p (snd (dispatch ev st)) = p' ->
  reachable st p -> enabled ev st p ->
  reachable st' p'.
Proof. intros <- <- Hr Hen. now apply reachable_step. Qed.

(** The session of [nanSession] is one the component can go through; it
    ends with no request in flight. *)
Lemma reachable_nanState : reachable (host := scenarioHost) nanState [].
Proof.
  unfold nanState, nanSession, run. cbn [foldl].
  eapply (reachable_step_eq _ _ _ ["IBM"]);
    [reflexivity|vm_compute; reflexivity| |].
  - eapply (reachable_step_eq _ _ _ ["MSFT"; "IBM"]);
      [reflexivity|vm_compute; reflexivity| |].
    + eapply (reachable_step_eq _ _ _ ["AAPL"; "MSFT"; "IBM"]);
        [reflexivity|vm_compute; reflexivity| |].
      * eapply (reachable_step_eq _ _ _ ["AAPL"; "MSFT"]);
          [reflexivity|vm_compute; reflexivity| |].
        -- eapply (reachable_step_eq _ _ _ ["AAPL"]);
             [reflexivity|vm_compute; reflexivity|apply reachable_mount|exact I].
        -- exact I.
      * cbn. repeat constructor.
    + cbn. repeat constructor.
  - cbn. repeat constructor.
Qed.

(** X7: in every state the component reaches, the watchlist holds no
    symbol twice. *)
Theorem watchlist_NoDup (host : Host) (st : State) (p : list string) :
  reachable st p -> NoDup (symbols st).
Proof. intros Hr. apply reachable_inv in Hr. apply Hr. Qed.

Lemma watchlist_NoDup_witness : NoDup (symbols nanState).
Proof.
  apply (watchlist_NoDup scenarioHost nanState []). apply reachable_nanState.
Defined.

Lemma dispatch_symbols (host : Host) (ev : event) (st : State) :
  symbols st `prefix_of` symbols (fst (dispatch ev st)).
Proof.
  destruct ev as [v|res|sym|sym| |sym res]; unfold dispatch;
    cbn [handleEvent depsChanged].
  - unfold handleQueryChange. now destruct (2 <=? String.length v)%nat.
  - now destruct res.
  - unfold handleAdd. case_bool_decide as Hin; cbn [negb]; [done|].
    unfold fetchTrigger. cbn [fst]. rewrite (proj1 (trigger_frame _ _)). cbn.
    now exists [sym].
  - done.
  - done.
  - unfold fetchTrigger. cbn [fst]. rewrite (proj1 (trigger_frame _ _)).
    unfold fetchStock_settle. now destruct (fetchStock_try sym res).
Qed.

(** X8: no sequence of events takes a symbol off the watchlist or moves
    one: the watchlist before is a prefix of the watchlist after. *)
Theorem watchlist_never_shrinks (host : Host) (evs : list event) (st : State) :
  symbols st `prefix_of` symbols (run evs st).
Proof.
  revert st. induction evs as [|ev evs IH]; intros st; [done|].
  change (run (ev :: evs) st) with (run evs (fst (dispatch ev st))).
  etransitivity; [apply dispatch_symbols|apply IH].
Qed.

(** X9: in every reached state no symbol has two intraday requests in
    flight, and the symbols with a request in flight are exactly those
    whose loading flag is set. *)
Theorem one_fetch_per_symbol (host : Host) (st : State) (p : list string) :
  reachable st p ->
  NoDup p /\ (forall sym, sym ∈ p <-> isLoading st sym = true).
Proof.
  intros Hr. apply reachable_inv in Hr.
  destruct Hr as ((_ & Hndp & Hload & _) & _). now split.
Qed.

Lemma one_fetch_per_symbol_witness :
  NoDup (intradaySymbols (snd mount)) /\
  (forall sym, sym ∈ intradaySymbols (snd mount) <->
               isLoading (fst mount) sym = true).
Proof.
  apply (one_fetch_per_symbol scenarioHost (fst mount)
           (intradaySymbols (snd mount))).
  apply reachable_mount.
Defined.



(** X11: a snapshot, once stored, stays as it is: no event that can
    happen in a reached state replaces or removes it. *)
Theorem snapshot_kept (host : Host) (ev : event) (st : State)
    (p : list string) (sym : string) (d : StockData) :
  reachable st p ->
  enabled ev st p ->
  dataMap st !! sym = Some d ->
  dataMap (fst (dispatch ev st)) !! sym = Some d.
Proof.
  intros Hr Hen Hd. apply reachable_inv in Hr.
  rewrite (proj1 (dispatch_trigger host ev st p Hr)).
  unfold fetchTrigger. cbn [fst]. rewrite (proj2 (trigger_frame _ _)).
  destruct Hr as ((_ & _ & Hload & Hl & _) & _).
  destruct ev as [v|res|sym'|sym'| |sym' res]; cbn [handleEvent fst].
  - unfold handleQueryChange. now destruct (2 <=? String.length v)%nat.
  - now destruct res.
  - unfold handleAdd. now case_bool_decide.
  - done.
  - done.
  - cbn in Hen. apply Hload, Hl in Hen as [_ Hnone].
    assert (Hne : sym' <> sym) by congruence.
    unfold fetchStock_settle. destruct (fetchStock_try sym' res); cbn.
    + now rewrite lookup_insert_ne by exact Hne.
    + now rewrite lookup_delete_ne by exact Hne.
Qed.

Lemma snapshot_kept_witness :
  dataMap
    (fst (dispatch (host := scenarioHost)
            (FetchSettled "MSFT" (RequestFailed "Network Error"))
            (fst (dispatch (host := scenarioHost)
                    (FetchSettled "AAPL" (IntradayData (Some scenarioSeries)))
                    (fst (dispatch (host := scenarioHost)
                            (SuggestionPicked "MSFT") (fst mount)))))))
    !! "AAPL" = Some scenarioSnapshot.
Proof.
  apply (snapshot_kept scenarioHost
           (FetchSettled "MSFT" (RequestFailed "Network Error")) _ ["MSFT"]).
  - eapply (reachable_step_eq _ _ _ ["AAPL"; "MSFT"]);
      [reflexivity|vm_compute; reflexivity| |].
    + eapply (reachable_step_eq _ _ _ ["AAPL"]);
        [reflexivity|vm_compute; reflexivity|apply reachable_mount|exact I].
    + cbn. repeat constructor.
  - cbn. repeat constructor.
  - vm_compute. reflexivity.
Defined.

(** X12: in every reached state the error map holds the empty string
    only: the message a failed fetch stores is erased by the fetch the
    effect starts on the render that shows it. *)
Theorem errors_erased (host : Host) (st : State) (p : list string)
    (sym e : string) :
  reachable st p ->
  errorMap st !! sym = Some e ->
  e = "".
Proof.
  intros Hr He. apply reachable_inv in Hr.
  destruct Hr as (_ & _ & Herr). now apply (Herr sym).
Qed.

Lemma errors_erased_witness :
  errorMap (fetchStock_settle (host := scenarioHost) "AAPL"
              (RequestFailed "Network Error") (fst mount)) !! "AAPL"
    = Some "Network Error" /\
  "" = "".
Proof.
  split; [reflexivity|].
  apply (errors_erased scenarioHost
           (fst (dispatch (host := scenarioHost)
                   (FetchSettled "AAPL" (RequestFailed "Network Error"))
                   (fst mount)))
           ["AAPL"] "AAPL" "").
  - eapply (reachable_step_eq _ _ _ ["AAPL"]);
      [reflexivity|vm_compute; reflexivity|apply reachable_mount|].
    cbn. repeat constructor.
  - vm_compute. reflexivity.
Defined.

Lemma handledInv_chart (st : State) (p : list string) (sym : string) :
  handledInv st p ->
  sym ∈ selected st ->
  panelError (chartPanel st sym) = None /\
  exists d, dataMap st !! sym = Some d /\
            panelChart (chartPanel st sym)
              = Some (time <$> history d, close <$> history d).
Proof.
  intros (_ & _ & _ & _ & _ & Herr & Hsel) Hin.
  destruct (Hsel sym Hin) as [d Hd]. split.
  - unfold chartPanel. cbn.
    destruct (errorMap st !! sym) as [e|] eqn:He; [|done].
    destruct (Herr sym e He) as [->|Ht]; [done|].
    apply effectTargets_spec in Ht as (_ & Hn & _). congruence.
  - exists d. split; [done|]. unfold chartPanel. cbn. now rewrite Hd.
Qed.

(** X13: in every render the panel of a selected symbol shows the chart of
    its stored history and no error text: the error text and the words
    No data available are never on screen. *)
Theorem chart_panel_shown (host : Host) (st : State) (sym : string) :
  rendered st ->
  sym ∈ selected st ->
  panelError (chartPanel st sym) = None /\
  exists d, dataMap st !! sym = Some d /\
            panelChart (chartPanel st sym)
              = Some (time <$> history d, close <$> history d).
Proof.
  intros [|st' p Hr|ev st' p Hr Hen] Hin.
  - cbn in Hin. now apply elem_of_empty in Hin.
  - apply reachable_inv in Hr. apply (handledInv_chart st' p); [apply Hr|exact Hin].
  - apply reachable_inv in Hr.
    eapply handledInv_chart; [|exact Hin]. exact (handled_inv host ev st' p Hr Hen).
Qed.

Lemma chart_panel_shown_witness :
  panelError
    (chartPanel (fst (handleEvent (host := scenarioHost) (RowClicked "MSFT")
                        nanState)) "MSFT") = None /\
  exists d,
    dataMap (fst (handleEvent (host := scenarioHost) (RowClicked "MSFT")
                    nanState)) !! "MSFT" = Some d /\
    panelChart
      (chartPanel (fst (handleEvent (host := scenarioHost) (RowClicked "MSFT")
                          nanState)) "MSFT")
      = Some (time <$> history d, close <$> history d).
Proof.
  apply (chart_panel_shown scenarioHost).
  - apply (rendered_handled (RowClicked "MSFT") nanState []).
    + apply reachable_nanState.
    + apply elem_of_sorted. split; [vm_compute; repeat constructor|].
      vm_compute. eauto.
  - vm_compute. reflexivity.
Defined.

(** ** The table body *)




(** ** Selecting rows *)

(** X16: a click on a row flips the selection of its symbol and of no
    other. *)
Theorem toggleSelect_flips (sym x : string) (st : State) :
  x ∈ selected (toggleSelect sym st) <->
  if decide (x = sym) then x ∉ selected st else x ∈ selected st.
Proof.
  unfold toggleSelect. cbn. case_bool_decide as Hin.
  - rewrite elem_of_difference, elem_of_singleton.
    destruct (decide (x = sym)) as [->|Hne]; tauto.
  - rewrite elem_of_union, elem_of_singleton.
    destruct (decide (x = sym)) as [->|Hne]; tauto.
Qed.


(** ** Search responses and the query *)



(** ** Adding a symbol *)



(** ** The price header *)

Lemma eqb_rank (x y : float) :
  is_nan x = false -> is_nan y = false ->
  (x =? y)%float = (rank x =? rank y)%Z.
Proof.
  intros Hx Hy. rewrite FloatAxioms.eqb_spec. unfold SFeqb.
  rewrite SFcompare_SF2Z by (apply Prim2SF_valid || now rewrite Prim2SF_nan).
  fold (rank x) (rank y).
  destruct (Z.compare_spec (rank x) (rank y)), (Z.eqb_spec (rank x) (rank y));
    (done || lia).
Qed.

Lemma StronglySorted_reverse {A : Type} (R : relation A) (l : list A) :
  StronglySorted R l -> StronglySorted (flip R) (reverse l).
Proof.
  induction 1 as [|x l HS IH Hx]; [constructor|].
  rewrite reverse_cons. apply StronglySorted_app.
  split; [|split; [exact IH|repeat constructor]].
  intros x1 x2 H1 ->%list_elem_of_singleton. rewrite elem_of_reverse in H1.
  rewrite Forall_forall in Hx. unfold flip. apply Hx. exact H1.
Qed.

Lemma StronglySorted_strengthen {A : Type} (R R' : relation A) (l : list A) :
  (forall a b, a ∈ l -> b ∈ l -> a <> b -> R a b -> R' a b) ->
  NoDup l -> StronglySorted R l -> StronglySorted R' l.
Proof.
  intros Himp Hnd HS. induction HS as [|x l HS IH Hx]; [constructor|].
  apply NoDup_cons in Hnd as [Hx' Hnd]. constructor.
  - apply IH; [|exact Hnd]. intros a b Ha Hb.
    apply Himp; apply elem_of_cons; now right.
  - rewrite Forall_forall in Hx |- *. intros y Hy. apply Himp.
    + apply elem_of_cons. now left.
    + apply elem_of_cons. now right.
    + intros ->. contradiction.
    + now apply Hx.
Qed.

(** The rows in terms of the ranks of their prices. *)
Lemma sorted_by_rank (st : State) :
  (forall sym d, sym ∈ symbols st -> dataMap st !! sym = Some d ->
                 is_nan (latestClose d) = false) ->
  StronglySorted
    (fun a b => exists da db,
         dataMap st !! a = Some da /\ dataMap st !! b = Some db /\
         if sortAsc st then (rank (latestClose da) <= rank (latestClose db))%Z
         else (rank (latestClose db) <= rank (latestClose da))%Z)
    (sorted st).
Proof.
  intros Hnum. unfold sorted.
  apply StronglySorted_js_sort
    with (P := fun sym => exists d, dataMap st !! sym = Some d /\
                                    is_nan (latestClose d) = false).
  - intros x y (dx & Ex & Nx) (dy & Ey & Ny) H.
    unfold compareRows in H. rewrite Ex, Ey in H.
    exists dy, dx. repeat split; try assumption.
    destruct (sortAsc st); rewrite sgn_sub in H by assumption;
      apply Z.compare_gt_iff in H; lia.
  - intros x y (dx & Ex & Nx) (dy & Ey & Ny) H.
    unfold compareRows in H. rewrite Ex, Ey in H.
    exists dx, dy. repeat split; try assumption.
    destruct (sortAsc st); rewrite sgn_sub in H by assumption;
      match goal with
      | H : (?a ?= ?b)%Z <> Gt |- _ =>
          destruct (Z.compare_spec a b); [lia|lia|congruence]
      end.
  - intros x y z (dx & Ex & Nx) (dy & Ey & Ny) (dz & Ez & Nz)
      (dx' & dy' & Ex' & Ey' & Hxy) (dy'' & dz' & Ey'' & Ez' & Hyz).
    exists dx, dz. repeat split; try assumption.
    assert (dx' = dx) as -> by congruence.
    assert (dy' = dy) as -> by congruence.
    assert (dy'' = dy) as -> by congruence.
    assert (dz' = dz) as -> by congruence.
    destruct (sortAsc st); lia.
  - apply Forall_forall. intros sym [Hin Hd]%list_elem_of_filter.
    unfold hasData in Hin. apply bool_decide_eq_true in Hin as [d Ed].
    exists d. split; [exact Ed|]. now apply (Hnum sym).
Qed.

(** X20: when the watchlist has no symbol twice, no stored price is [NaN]
    and no two symbols have equal prices, a click on the price header
    flips the sort flag, sends nothing and reverses the rows of the
    table. *)
Theorem header_click_reverses (host : Host) (st : State) :
  NoDup (symbols st) ->
  (forall sym d, sym ∈ symbols st -> dataMap st !! sym = Some d ->
                 is_nan (latestClose d) = false) ->
  (forall a b da db, a ∈ symbols st -> b ∈ symbols st -> a <> b ->
     dataMap st !! a = Some da -> dataMap st !! b = Some db ->
     (latestClose da =? latestClose db)%float = false) ->
  sortAsc (fst (dispatch PriceHeaderClicked st)) = negb (sortAsc st) /\
  snd (dispatch PriceHeaderClicked st) = [] /\
  sorted (fst (dispatch PriceHeaderClicked st)) = reverse (sorted st).
Proof.
  intros Hnd Hnum Hdist.
  change (dispatch PriceHeaderClicked st)
    with (setSortAsc (negb (sortAsc st)) st, @nil request).
  cbn [fst snd]. split; [done|]. split; [done|].
  set (st' := setSortAsc (negb (sortAsc st)) st).
  assert (Hp : sorted st' ≡ₚ sorted st) by now rewrite !sorted_Permutation.
  assert (Hnds : NoDup (sorted st)).
  { rewrite sorted_Permutation. now apply NoDup_filter. }
  assert (Hne : forall a b da db, a ∈ sorted st -> b ∈ sorted st -> a <> b ->
            dataMap st !! a = Some da -> dataMap st !! b = Some db ->
            rank (latestClose da) <> rank (latestClose db)).
  { intros a b da db [Ha _]%elem_of_sorted [Hb _]%elem_of_sorted Hab Ea Eb.
    specialize (Hdist a b da db Ha Hb Hab Ea Eb).
    rewrite eqb_rank in Hdist by eauto. now apply Z.eqb_neq in Hdist. }
  pose (Rs := fun a b : string => exists da db,
         dataMap st !! a = Some da /\ dataMap st !! b = Some db /\
         if sortAsc st then (rank (latestClose db) < rank (latestClose da))%Z
         else (rank (latestClose da) < rank (latestClose db))%Z).
  apply (StronglySorted_unique_strong Rs).
  - intros x1 x2 _ _ (d1 & d2 & E1 & E2 & H12) (d2' & d1' & E2' & E1' & H21).
    assert (d1' = d1) as -> by congruence.
    assert (d2' = d2) as -> by congruence.
    destruct (sortAsc st); lia.
  - eapply StronglySorted_strengthen;
      [|now rewrite Hp|apply (sorted_by_rank st'), Hnum].
    intros a b Ha Hb Hab (da & db & Ea & Eb & Hle).
    exists da, db. split; [exact Ea|]. split; [exact Eb|].
    rewrite Hp in Ha, Hb. specialize (Hne a b da db Ha Hb Hab Ea Eb).
    cbn in Hle. destruct (sortAsc st); cbn in Hle; lia.
  - apply (StronglySorted_reverse (flip Rs)).
    eapply StronglySorted_strengthen; [|exact Hnds|apply sorted_by_rank, Hnum].
    intros a b Ha Hb Hab (da & db & Ea & Eb & Hle).
    exists db, da. split; [exact Eb|]. split; [exact Ea|].
    specialize (Hne a b da db Ha Hb Hab Ea Eb).
    destruct (sortAsc st); lia.
  - rewrite Hp. symmetry. apply reverse_Permutation.
Qed.

Lemma header_click_reverses_witness :
  sortAsc (fst (dispatch (host := scenarioHost) PriceHeaderClicked pricedState))
    = negb (sortAsc pricedState) /\
  snd (dispatch (host := scenarioHost) PriceHeaderClicked pricedState) = [] /\
  sorted (fst (dispatch (host := scenarioHost) PriceHeaderClicked pricedState))
    = reverse (sorted pricedState).
Proof.
  apply (header_click_reverses scenarioHost pricedState).
  - apply (bool_decide_unpack _). vm_compute. exact I.
  - intros sym d Hin. cbn in Hin.
    repeat (apply elem_of_cons in Hin as [->|Hin]);
      [| | | |now apply elem_of_nil in Hin];
      vm_compute; intros E; try discriminate E; now injection E as <-.
  - intros a b da db Ha Hb. cbn in Ha, Hb.
    repeat (apply elem_of_cons in Ha as [->|Ha]);
      [| | | |now apply elem_of_nil in Ha];
      (repeat (apply elem_of_cons in Hb as [->|Hb]);
       [| | | |now apply elem_of_nil in Hb]);
      intros Hab; try (now contradiction Hab);
      vm_compute; intros Ea Eb; try discriminate Ea; try discriminate Eb;
      injection Ea as <-; injection Eb as <-; reflexivity.
Defined.

Lemma eqb_not_nan (x y : float) :
  (x =? y)%float = true -> is_nan x = false /\ is_nan y = false.
Proof.
  rewrite FloatAxioms.eqb_spec, <- !Prim2SF_nan. unfold SFeqb.
  now destruct (Prim2SF x), (Prim2SF y).
Qed.

Lemma Sorted_all_related {A : Type} (R : relation A) (l : list A) :
  (forall a b, a ∈ l -> b ∈ l -> R a b) -> Sorted R l.
Proof.
  induction l as [|x l IH]; intros HR; [constructor|].
  constructor.
  - apply IH. intros a b Ha Hb. apply HR; apply elem_of_cons; now right.
  - destruct l as [|y l]; constructor.
    apply HR; [apply elem_of_cons; now left|].
    apply elem_of_cons. right. apply elem_of_cons. now left.
Qed.

(** X21: when all stored prices of the watchlist are equal, the rows are
    in watchlist order whatever the sort flag is: the sort is stable, so a
    click on the price header does not reverse rows with equal prices. *)
Theorem equal_prices_keep_order (st : State) :
  (forall a b da db, a ∈ symbols st -> b ∈ symbols st ->
     dataMap st !! a = Some da -> dataMap st !! b = Some db ->
     (latestClose da =? latestClose db)%float = true) ->
  sorted st = filter (fun sym => hasData st sym = true) (symbols st).
Proof.
  intros Heq. unfold sorted. apply js_sort_ascending, Sorted_all_related.
  intros a b [Ha Hina]%list_elem_of_filter [Hb Hinb]%list_elem_of_filter.
  unfold hasData in Ha, Hb.
  apply bool_decide_eq_true in Ha as [da Ea].
  apply bool_decide_eq_true in Hb as [db Eb].
  unfold compareRows. rewrite Ea, Eb.
  pose proof (Heq a b da db Hina Hinb Ea Eb) as Hab.
  destruct (eqb_not_nan _ _ Hab) as [Na Nb].
  rewrite eqb_rank in Hab by assumption. apply Z.eqb_eq in Hab.
  destruct (sortAsc st); rewrite sgn_sub by assumption; rewrite Hab;
    now rewrite Z.compare_refl.
Qed.

Lemma equal_prices_keep_order_witness :
  sorted (mkState ["MSFT"; "AAPL"]
            (<["AAPL" := quote "AAPL" 100]> (<["MSFT" := quote "MSFT" 100]> ∅))
            ∅ ∅ ∅ false "" [])
  = filter (fun sym =>
              hasData (mkState ["MSFT"; "AAPL"]
                         (<["AAPL" := quote "AAPL" 100]>
                            (<["MSFT" := quote "MSFT" 100]> ∅))
                         ∅ ∅ ∅ false "" []) sym = true)
      ["MSFT"; "AAPL"].
Proof.
  apply (equal_prices_keep_order
           (mkState ["MSFT"; "AAPL"]
              (<["AAPL" := quote "AAPL" 100]> (<["MSFT" := quote "MSFT" 100]> ∅))
              ∅ ∅ ∅ false "" [])).
  intros a b da db Ha Hb. cbn in Ha, Hb.
  repeat (apply elem_of_cons in Ha as [->|Ha]);
    [| |now apply elem_of_nil in Ha];
    (repeat (apply elem_of_cons in Hb as [->|Hb]);
     [| |now apply elem_of_nil in Hb]);
    vm_compute; intros Ea Eb;
    injection Ea as <-; injection Eb as <-; reflexivity.
Defined.

(** ** The requests the component sends *)

(** X22: picking a symbol that is in the watchlist sends nothing and
    changes nothing but the query and the suggestions, which it empties:
    the effect does not run, as the watchlist array is not replaced. *)
Theorem pick_existing_symbol (host : Host) (sym : string) (st : State) :
  sym ∈ symbols st ->
  dispatch (SuggestionPicked sym) st = (setSuggestions [] (setQuery "" st), []).
Proof.
  intros Hin. unfold dispatch. cbn [handleEvent depsChanged].
  unfold handleAdd. now rewrite bool_decide_eq_true_2 by exact Hin.
Qed.

Lemma pick_existing_symbol_witness :
  dispatch (host := scenarioHost) (SuggestionPicked "MSFT") nanState
  = (setSuggestions [] (setQuery "" nanState), []).
Proof.
  apply (pick_existing_symbol scenarioHost "MSFT" nanState).
  vm_compute. repeat constructor.
Defined.

(** X23: every request the component sends after an event is either the
    search for the text just typed, of two characters or more, or the
    intraday request for a watchlist symbol that has no snapshot and whose
    loading flag is now set. *)
Theorem requests_sent (host : Host) (ev : event) (st : State) :
  Forall (fun req =>
            match req with
            | GetIntraday sym =>
                sym ∈ symbols (fst (dispatch ev st)) /\
                dataMap (fst (dispatch ev st)) !! sym = None /\
                isLoading (fst (dispatch ev st)) sym = true
            | GetSearch v =>
                ev = QueryChanged v /\ (2 <= String.length v)%nat /\
                query (fst (dispatch ev st)) = v
            end)
    (snd (dispatch ev st)).
Proof.
  assert (Hrun : forall st1,
    Forall (fun req =>
              match req with
              | GetIntraday sym =>
                  sym ∈ symbols (fst (fetchTrigger st1)) /\
                  dataMap (fst (fetchTrigger st1)) !! sym = None /\
                  isLoading (fst (fetchTrigger st1)) sym = true
              | GetSearch v =>
                  ev = QueryChanged v /\ (2 <= String.length v)%nat /\
                  query (fst (fetchTrigger st1)) = v
              end)
      ([] ++ snd (fetchTrigger st1))).
  { intros st1. apply Forall_forall.
    intros req (sym & -> & Ht)%list_elem_of_fmap.
    unfold fetchTrigger. cbn [fst].
    destruct (trigger_frame (effectTargets st1) st1) as [-> ->].
    rewrite trigger_loading by exact Ht.
    apply effectTargets_spec in Ht. tauto. }
  destruct ev as [v|res|sym|sym| |sym res]; unfold dispatch;
    cbn [handleEvent depsChanged]; try (now constructor).
  - unfold handleQueryChange.
    destruct (Nat.leb_spec 2 (String.length v)) as [Hv|Hv]; cbn;
      [|constructor].
    constructor; [|constructor]. done.
  - case_bool_decide as Hin; cbn [negb]; [constructor|].
    apply (Hrun (handleAdd sym st)).
  - apply (Hrun (fetchStock_settle sym res st)).
Qed.

(** X24: the retry has no limit.  After any number of failed responses for
    a watchlist symbol, one more failed response is again followed by a new
    request for it, with its loading flag set and no snapshot stored. *)
Theorem retried_without_limit (host : Host) (sym : string)
    (res : intradayResponse) (message : string) (n : nat) (st : State) :
  sym ∈ symbols st ->
  fetchStock_try sym res = Throw message ->
  GetIntraday sym
    ∈ snd (dispatch (FetchSettled sym res)
             (run (replicate n (FetchSettled sym res)) st)) /\
  isLoading (fst (dispatch (FetchSettled sym res)
                    (run (replicate n (FetchSettled sym res)) st))) sym = true /\
  dataMap (fst (dispatch (FetchSettled sym res)
                  (run (replicate n (FetchSettled sym res)) st))) !! sym = None.
Proof.
  intros Hin Htry.
  assert (Hin' : sym ∈ symbols (run (replicate n (FetchSettled sym res)) st)).
  { revert st Hin. induction n as [|n IH]; intros st Hin; [exact Hin|].
    change (run (replicate (S n) (FetchSettled sym res)) st)
      with (run (replicate n (FetchSettled sym res))
              (fst (dispatch (FetchSettled sym res) st))).
    apply IH. eapply elem_of_prefix; [exact Hin|apply dispatch_symbols]. }
  generalize dependent (run (replicate n (FetchSettled sym res)) st).
  intros st' Hin'.
  assert (Ht : sym ∈ effectTargets (fetchStock_settle sym res st')).
  { apply effectTargets_spec.
    rewrite (fetchStock_settle_Throw _ _ _ _ Htry). unfold isLoading. cbn.
    now rewrite lookup_delete_eq, lookup_insert_eq. }
  rewrite dispatch_FetchSettled. cbn [fst snd]. split; [|split].
  - apply list_elem_of_fmap. now exists sym.
  - now apply trigger_loading.
  - unfold fetchTrigger. cbn [fst]. rewrite (proj2 (trigger_frame _ _)).
    rewrite (fetchStock_settle_Throw _ _ _ _ Htry). cbn.
    apply lookup_delete_eq.
Qed.

Lemma retried_without_limit_witness :
  GetIntraday "AAPL"
    ∈ snd (dispatch (host := scenarioHost)
             (FetchSettled "AAPL" (IntradayData None))
             (run (host := scenarioHost)
                (replicate 3 (FetchSettled "AAPL" (IntradayData None)))
                (fst mount))) /\
  isLoading (fst (dispatch (host := scenarioHost)
                    (FetchSettled "AAPL" (IntradayData None))
                    (run (host := scenarioHost)
                       (replicate 3 (FetchSettled "AAPL" (IntradayData None)))
                       (fst mount)))) "AAPL" = true /\
  dataMap (fst (dispatch (host := scenarioHost)
                  (FetchSettled "AAPL" (IntradayData None))
                  (run (host := scenarioHost)
                     (replicate 3 (FetchSettled "AAPL" (IntradayData None)))
                     (fst mount)))) !! "AAPL" = None.
Proof.
  apply (retried_without_limit scenarioHost "AAPL" (IntradayData None)
           (noDataMessage "AAPL") 3 (fst mount)).
  - cbn. apply elem_of_cons. now left.
  - reflexivity.
Defined.
